(** * Conversation thread reconstruction and memory assembly

    A shallow embedding of [src/twitter/utils/imageUtils.ts]:
    [getImageAsBase64], [getConversationThread], [formatMemory],
    [fetchAndFormatTweetMemory] and [assembleTwitterInterface].

    The asynchronous functions are written in a small monad [Async] that
    threads the list of externally visible effects (platform fetches,
    history reads, HTTP requests, console output) and distinguishes a
    fulfilled promise from a rejected one.  The only loop of the file, the
    upward walk over [inReplyToStatusId], takes explicit fuel. *)

From Stdlib Require Import ZArith String Ascii List.
From Stdlib.Strings Require Import Byte.
From stdpp Require Import base option list strings gmap pretty.

Local Open Scope string_scope.
Local Open Scope Z_scope.
Local Open Scope list_scope.

(** ** JavaScript values used by the file *)

Module Js.

Definition nl : string := String "010"%char EmptyString.

(** [x || d] on a string: the empty string is falsy. *)
Definition or_else (s d : string) : string :=
  if decide (s = "") then d else s.

(** [x || d] on a possibly undefined string. *)
Definition opt_or_else (s : option string) (d : string) : string :=
  match s with
  | Some v => or_else v d
  | None => d
  end.

(** Truthiness of a possibly undefined string, as tested by [if (x)],
    [while (x)] and [!x]. *)
Definition truthy (s : option string) : bool :=
  match s with
  | Some v => negb (bool_decide (v = ""))
  | None => false
  end.

(** [Array.prototype.join]. *)
Fixpoint join (sep : string) (l : list string) : string :=
  match l with
  | [] => ""
  | [x] => x
  | x :: r => x +:+ sep +:+ join sep r
  end.

(** [String.prototype.toLowerCase], on the letters A-Z.  No character
    outside A-Z lowercases to a letter of ['agent'], the only string the
    result is compared with. *)
Definition lower_ascii (c : ascii) : ascii :=
  let n := nat_of_ascii c in
  if (65 <=? n)%nat && (n <=? 90)%nat then ascii_of_nat (n + 32) else c.

Fixpoint toLowerCase (s : string) : string :=
  match s with
  | EmptyString => EmptyString
  | String c r => String (lower_ascii c) (toLowerCase r)
  end.

(** Template-literal rendering of an array length. *)
Definition of_nat (n : nat) : string := pretty n.

(** *** Dates: a time value in milliseconds, or NaN (Invalid Date). *)

Record Date := mkDate { timeValue : option Z }.

Definition timeClip (ms : Z) : option Z :=
  if Z.abs ms <=? 8640000000000000 then Some ms else None.

(** [new Date(v)] for [v] a Date or [undefined]. *)
Definition newDate (v : option Date) : Date :=
  match v with
  | Some d => mkDate (timeValue d ≫= timeClip)
  | None => mkDate None
  end.

Fixpoint zeros (n : nat) : string :=
  match n with
  | O => ""
  | S k => "0" +:+ zeros k
  end.

Definition padStart (w : nat) (s : string) : string :=
  zeros (w - String.length s) +:+ s.

Definition pad (w : nat) (n : Z) : string := padStart w (pretty (Z.to_N n)).

(** Year, month and day of a day number counted from 1970-01-01. *)
Definition civil_from_days (days : Z) : Z * Z * Z :=
  let z := days + 719468 in
  let era := z / 146097 in
  let doe := z mod 146097 in
  let yoe := (doe - doe / 1460 + doe / 36524 - doe / 146096) / 365 in
  let doy := doe - (365 * yoe + yoe / 4 - yoe / 100) in
  let mp := (5 * doy + 2) / 153 in
  let d := doy - (153 * mp + 2) / 5 + 1 in
  let m := if mp <? 10 then mp + 3 else mp - 9 in
  let y := yoe + era * 400 in
  (if m <=? 2 then y + 1 else y, m, d).

Definition year_string (y : Z) : string :=
  if (0 <=? y) && (y <=? 9999) then pad 4 y
  else if y <? 0 then "-" +:+ pad 6 (- y)
  else "+" +:+ pad 6 y.

Definition iso_of_ms (ms : Z) : string :=
  let '(y, m, d) := civil_from_days (ms / 86400000) in
  let t := ms mod 86400000 in
  year_string y +:+ "-" +:+ pad 2 m +:+ "-" +:+ pad 2 d +:+ "T"
    +:+ pad 2 (t / 3600000) +:+ ":" +:+ pad 2 (t / 60000 mod 60) +:+ ":"
    +:+ pad 2 (t / 1000 mod 60) +:+ "." +:+ pad 3 (t mod 1000) +:+ "Z".

(** [Date.prototype.toISOString]: [None] is the RangeError raised on an
    Invalid Date. *)
Definition toISOString (d : Date) : option string :=
  iso_of_ms <$> timeValue d.

(** *** [Buffer.prototype.toString('base64')] *)

Definition b64_alphabet : list ascii :=
  list_ascii_of_string
    "ABCDEFGHIJKLMNOPQRSTUVWXYZabcdefghijklmnopqrstuvwxyz0123456789+/".

Definition b64_digit (n : N) : string :=
  String (nth (N.to_nat n) b64_alphabet "="%char) EmptyString.

Fixpoint base64_N (bs : list N) : string :=
  match bs with
  | [] => ""
  | [a] =>
      b64_digit (a / 4) +:+ b64_digit (a mod 4 * 16) +:+ "=="
  | [a; b] =>
      b64_digit (a / 4) +:+ b64_digit (a mod 4 * 16 + b / 16)
        +:+ b64_digit (b mod 16 * 4) +:+ "="
  | a :: b :: c :: r =>
      b64_digit (a / 4) +:+ b64_digit (a mod 4 * 16 + b / 16)
        +:+ b64_digit (b mod 16 * 4 + c / 64) +:+ b64_digit (c mod 64)
        +:+ base64_N r
  end%N.

Definition base64 (bs : list byte) : string := base64_N (Byte.to_N <$> bs).

End Js.

(** ** Data model *)

(** A photo of a tweet, as the platform client returns it. *)
Module Photo.
Record t := mk { id : string; url : string }.
End Photo.

(** The fields of the platform client's [Tweet] that the file reads; every
    one of them is optional in the client's type. *)
Module Tweet.
Record t := mk {
  id : option string;
  username : option string;
  text : option string;
  timeParsed : option Js.Date;
  photos : option (list Photo.t);
  inReplyToStatusId : option string;
  quotedStatusId : option string
}.
End Tweet.

(** [interface QuoteContext]. *)
Module Quote.
Record t := mk {
  sender : string;
  text : string;
  timestamp : string;
  photos : list string
}.
End Quote.

(** An element of the array returned by [getConversationThread]; the rows
    of the persisted history are read through the same fields by
    [formatMessage].  [isFocusTweet] is [false] where the source leaves
    the property undefined. *)
Module Node.
Record t := mk {
  sender : string;
  tweet_id : option string;
  text : string;
  timestamp : string;
  photos : list string;
  quoteContext : option Quote.t;
  isFocusTweet : bool
}.
End Node.

(** The [focusTweet] member of the result of [fetchAndFormatTweetMemory]. *)
Module Focus.
Record t := mk {
  sender : string;
  text : string;
  timestamp : string;
  photos : list string;
  quoteContext : option Quote.t
}.
End Focus.

(** An element of [allPhotos]. *)
Module PhotoRef.
Record t := mk { photoUrl : string; sender : string }.
End PhotoRef.

(** The result of [fetchAndFormatTweetMemory] when it is not [null]. *)
Module Memory.
Record t := mk {
  memory : string;
  username : string;
  text : string;
  photos : list PhotoRef.t;
  focusTweet : option Focus.t
}.
End Memory.

(** The result of [getImageAsBase64] when it is not [null]. *)
Module ImageData.
Record t := mk { media_type : string; data : string }.
End ImageData.

(** An element of [imageContents]. *)
Module Image.
Record t := mk { sender : string; media_type : string; data : string }.
End Image.

(** The result of [assembleTwitterInterface]. *)
Module Bundle.
Record t := mk { textContent : string; imageContents : list Image.t }.
End Bundle.

(** The part of an HTTP response that [getImageAsBase64] reads. *)
Module Response.
Record t := mk { content_type : option string; data : list byte }.
End Response.

(** ** The outside world *)

(** A value that is thrown, or with which a promise is rejected: an
    [Error] with its message, or any other value. *)
Inductive Thrown : Type :=
| ErrorObject (message : string)
| OtherValue.

(** The [RangeError] of [toISOString] on an invalid date. *)
Definition invalidTimeValue : Thrown := ErrorObject "Invalid time value".

(** How a promise of an external collaborator settles. *)
Inductive Settled (A : Type) : Type :=
| Resolve (a : A)
| Reject (error : Thrown).
Arguments Resolve {A} a.
Arguments Reject {A} error.

(** The collaborators imported by the file and the ambient configuration:
    the platform client ([scraper.getTweet], which resolves to [null] for a
    tweet it cannot find), the persisted history, the HTTP client, the
    timestamp formatter of [utils/formatTimestamps] and
    [process.env.TWITTER_USERNAME]. *)
Record World := mkWorld {
  getTweet : string → Settled (option Tweet.t);
  getConversationWithUser : string → Settled (list Node.t);
  axios_get : string → Settled Response.t;
  formatTimestamp : string → string;
  TWITTER_USERNAME : option string
}.

(** ** Effects *)

(** What the file does to the outside: the calls it issues and the lines it
    prints.  Of a printed line only the text is kept, with what a template
    splices into it; an error object printed next to it is not. *)
Inductive Event : Type :=
| CallGetTweet (id : string)
| CallGetConversationWithUser (username : string)
| CallAxiosGet (url : string)
| ConsoleLog (msg : string)
| ConsoleError (msg : string).

(** The state of the promise of an asynchronous function once it has run:
    [Pending] is a loop that has not finished within its fuel. *)
Inductive Outcome (A : Type) : Type :=
| Fulfilled (a : A)
| Rejected (error : Thrown)
| Pending.
Arguments Fulfilled {A} a.
Arguments Rejected {A} error.
Arguments Pending {A}.

Definition Log : Type := list Event.

Definition Async (A : Type) : Type := Log → Outcome A * Log.

Definition run {A} (m : Async A) (log : Log) : Outcome A * Log := m log.

#[global] Instance Async_ret : MRet Async := λ A a log, (Fulfilled a, log).

#[global] Instance Async_bind : MBind Async := λ A B f m log,
  match m log with
  | (Fulfilled a, log') => f a log'
  | (Rejected error, log') => (Rejected error, log')
  | (Pending, log') => (Pending, log')
  end.

Definition throw {A} (error : Thrown) : Async A := λ log, (Rejected error, log).

Definition never {A} : Async A := λ log, (Pending, log).

Definition emit (e : Event) : Async unit := λ log, (Fulfilled (), log ++ [e]).

(** [try { m } catch (error) { handler }]. *)
Definition try_catch {A} (m : Async A) (handler : Thrown → Async A) : Async A := λ log,
  match m log with
  | (Rejected error, log') => handler error log'
  | r => r
  end.

(** [await] of an external call: the call is recorded when it is issued. *)
Definition await_call {A} (e : Event) (r : Settled A) : Async A := λ log,
  (match r with Resolve a => Fulfilled a | Reject error => Rejected error end, log ++ [e]).

(** [await Promise.all(l.map(async x => f x))].  Every callback is started,
    in order, whether or not an earlier one has failed; the combined
    promise is rejected as soon as one of them is.  Its reason is that of
    the callback that is rejected first; the model has no clock and takes
    the first in the order of the list.  The one handler that receives
    such a reason, in [getConversationThread], prints it next to a fixed
    text and does not read it. *)
Fixpoint promise_all_map {A B} (f : A → Async B) (l : list A) : Async (list B) :=
  match l with
  | [] => mret []
  | x :: r => λ log,
      let '(ox, log1) := f x log in
      let '(ors, log2) := promise_all_map f r log1 in
      (match ox, ors with
       | Fulfilled b, Fulfilled bs => Fulfilled (b :: bs)
       | Pending, _ | Fulfilled _, Pending => Pending
       | Rejected error, _ | Fulfilled _, Rejected error => Rejected error
       end, log2)
  end.

(** ** The program *)

Section Program.

Context (W : World).

Definition scraper_getTweet (id : string) : Async (option Tweet.t) :=
  await_call (CallGetTweet id) (getTweet W id).

Definition console_log (msg : string) : Async unit := emit (ConsoleLog msg).

Definition console_error (msg : string) : Async unit := emit (ConsoleError msg).

(** *** getImageAsBase64 *)

Definition getImageAsBase64 (imageUrl : string) : Async (option ImageData.t) :=
  try_catch
    (response ← await_call (CallAxiosGet imageUrl) (axios_get W imageUrl);
     let media_type := Js.opt_or_else (Response.content_type response) "image/jpeg" in
     let data := Js.base64 (Response.data response) in
     mret (Some (ImageData.mk media_type data)))
    (λ error,
       console_error ("Failed to fetch image from " +:+ imageUrl +:+ ":");;
       mret None).

(** *** getConversationThread *)

(** [new Date(t.timeParsed!).toISOString()]. *)
Definition isoTimestamp (timeParsed : option Js.Date) : Async string :=
  match Js.toISOString (Js.newDate timeParsed) with
  | Some s => mret s
  | None => throw invalidTimeValue
  end.

(** [t.photos?.map(photo => photo.url) || []]. *)
Definition photoUrls (t : Tweet.t) : list string :=
  match Tweet.photos t with
  | Some ps => Photo.url <$> ps
  | None => []
  end.

(** The [while] loop that collects the parents, with [unshift] as cons.  A
    loop that would go on after [fuel] requests leaves the promise
    pending. *)
Fixpoint walk (fuel : nat) (currentTweet : Tweet.t) (parentTweets : list Tweet.t)
  : Async (list Tweet.t) :=
  if Js.truthy (Tweet.inReplyToStatusId currentTweet) then
    match fuel with
    | O => never
    | S fuel' =>
        parentTweet ← scraper_getTweet (default "" (Tweet.inReplyToStatusId currentTweet));
        match parentTweet with
        | Some p => walk fuel' p (p :: parentTweets)
        | None => mret parentTweets
        end
    end
  else mret parentTweets.

(** The quote block, written twice in the source (for a parent and for
    the focus tweet) with the same body. *)
Definition resolveQuote (t : Tweet.t) : Async (option Quote.t) :=
  if Js.truthy (Tweet.quotedStatusId t) then
    quotedTweet ← scraper_getTweet (default "" (Tweet.quotedStatusId t));
    match quotedTweet with
    | Some q =>
        ts ← isoTimestamp (Tweet.timeParsed q);
        mret (Some {| Quote.sender := Js.opt_or_else (Tweet.username q) "Unknown User";
                      Quote.text := Js.opt_or_else (Tweet.text q) "";
                      Quote.timestamp := ts;
                      Quote.photos := photoUrls q |})
    | None => mret None
    end
  else mret None.

(** The object literal built for a parent ([isFocus = false]) and for the
    focus tweet ([isFocus = true]). *)
Definition threadNode (isFocus : bool) (t : Tweet.t) (quoteContext : option Quote.t)
  : Async Node.t :=
  ts ← isoTimestamp (Tweet.timeParsed t);
  mret {| Node.sender := Js.opt_or_else (Tweet.username t) "Unknown User";
          Node.tweet_id := Tweet.id t;
          Node.text := Js.opt_or_else (Tweet.text t) "";
          Node.timestamp := ts;
          Node.photos := photoUrls t;
          Node.quoteContext := quoteContext;
          Node.isFocusTweet := isFocus |}.

Definition parentNode (t : Tweet.t) : Async Node.t :=
  quoteContext ← resolveQuote t;
  threadNode false t quoteContext.

Definition getConversationThread (fuel : nat) (tweetId : string) : Async (list Node.t) :=
  try_catch
    (focusTweet ← scraper_getTweet tweetId;
     match focusTweet with
     | None => console_error "Tweet not found.";; mret []
     | Some focusTweet =>
         parentTweets ← walk fuel focusTweet [];
         conversation ← promise_all_map parentNode parentTweets;
         focusTweetQuoteContext ← resolveQuote focusTweet;
         focusNode ← threadNode true focusTweet focusTweetQuoteContext;
         mret (conversation ++ [focusNode])
     end)
    (λ error, console_error "Error fetching conversation thread:";; mret []).

(** *** formatMemory *)

Definition isAgent (sender : string) : bool :=
  bool_decide (Js.toLowerCase sender = "agent")
  || bool_decide (Some sender = TWITTER_USERNAME W).

Definition senderDisplay (sender : string) : string :=
  if isAgent sender then "(YOU)" else sender.

Definition formatMessage (msg : Node.t) : string :=
  let formattedTimestamp := formatTimestamp W (Node.timestamp msg) in
  let messageText :=
    "[" +:+ formattedTimestamp +:+ "] " +:+ senderDisplay (Node.sender msg)
      +:+ ": " +:+ Node.text msg in
  match Node.quoteContext msg with
  | Some qc =>
      let messageText :=
        messageText +:+ Js.nl +:+ "    📝 Quoting " +:+ senderDisplay (Quote.sender qc)
          +:+ ": " +:+ Quote.text qc in
      if (0 <? length (Quote.photos qc))%nat then
        messageText +:+ Js.nl +:+ "    🖼️ Quote tweet contains "
          +:+ Js.of_nat (length (Quote.photos qc)) +:+ " image(s)"
      else messageText
  | None => messageText
  end.

Definition formatMemory (threadMessages historyMessages : list Node.t) : string :=
  let parentTweet := head threadMessages in
  let restThreadMessages := tail threadMessages in
  let focusTweet := last restThreadMessages in
  let repliesAbove := removelast restThreadMessages in
  let parentTweetSection :=
    match parentTweet with
    | Some p => "Parent Tweet:" +:+ Js.nl +:+ formatMessage p +:+ Js.nl
    | None => ""
    end in
  let repliesAboveSection :=
    if (0 <? length repliesAbove)%nat then
      "Replies Above the Tweet You Are Replying To:" +:+ Js.nl
        +:+ Js.join Js.nl (formatMessage <$> repliesAbove) +:+ Js.nl
    else "" in
  let focusTweetSection :=
    match focusTweet with
    | Some f => "The Tweet You Are Replying To:" +:+ Js.nl +:+ formatMessage f +:+ Js.nl
    | None => ""
    end in
  let threadMemory :=
    "Current Tweet Thread:" +:+ Js.nl +:+ Js.nl +:+ parentTweetSection
      +:+ repliesAboveSection +:+ focusTweetSection in
  let formattedHistory := Js.join Js.nl (formatMessage <$> historyMessages) in
  let historyMemory :=
    if decide (formattedHistory = "") then "No previous conversation history."
    else "Past Conversation History:" +:+ Js.nl +:+ Js.nl +:+ formattedHistory in
  threadMemory +:+ Js.nl +:+ Js.nl +:+ historyMemory.

(** *** fetchAndFormatTweetMemory *)

(** The body of the [reduce] callback: what one message adds to [photos]. *)
Definition messagePhotos (message : Node.t) : list PhotoRef.t :=
  if Node.isFocusTweet message then []
  else
    ((λ photoUrl, PhotoRef.mk photoUrl (Node.sender message)) <$> Node.photos message)
    ++ match Node.quoteContext message with
       | Some qc => (λ photoUrl, PhotoRef.mk photoUrl (Quote.sender qc)) <$> Quote.photos qc
       | None => []
       end.

Definition allPhotos (conversationThread : list Node.t) : list PhotoRef.t :=
  foldl (λ photos message, photos ++ messagePhotos message) [] conversationThread.

Definition focusOf (conversationThread : list Node.t) : option Focus.t :=
  match List.find Node.isFocusTweet conversationThread with
  | Some focusTweet =>
      Some {| Focus.sender := Node.sender focusTweet;
              Focus.text := Node.text focusTweet;
              Focus.timestamp := formatTimestamp W (Node.timestamp focusTweet);
              Focus.photos := Node.photos focusTweet;
              Focus.quoteContext := Node.quoteContext focusTweet |}
  | None => None
  end.

Definition fetchAndFormatTweetMemory (fuel : nat) (tweetId : string)
  : Async (option Memory.t) :=
  try_catch
    (tweet ← scraper_getTweet tweetId;
     if Js.truthy (tweet ≫= Tweet.username) && Js.truthy (tweet ≫= Tweet.text) then
       let username := default "" (tweet ≫= Tweet.username) in
       let text := default "" (tweet ≫= Tweet.text) in
       conversationWithUser ←
         await_call (CallGetConversationWithUser username) (getConversationWithUser W username);
       conversationThread ← getConversationThread fuel tweetId;
       let memory := formatMemory conversationThread conversationWithUser in
       mret (Some {| Memory.memory := memory;
                     Memory.username := username;
                     Memory.text := text;
                     Memory.photos := allPhotos conversationThread;
                     Memory.focusTweet := focusOf conversationThread |})
     else
       console_log ("❌ Failed to fetch tweet, username, or text for tweet " +:+ tweetId);;
       mret None)
    (λ error,
       match error with
       | ErrorObject message =>
           console_log ("❌ Error fetching memory context: " +:+ message);;
           console_error ""
       | OtherValue =>
           console_log "❌ An unknown error occurred";;
           console_error ""
       end;;
       mret None).

(** *** assembleTwitterInterface *)

(** The three image loops share one body: skip a locator that is already
    in [processedPhotoUrls], otherwise fetch it and, when the fetch
    succeeds, push the encoded image and record the locator. *)
Fixpoint pushImages (items : list PhotoRef.t) (st : list Image.t * gset string)
  : Async (list Image.t * gset string) :=
  match items with
  | [] => mret st
  | item :: rest =>
      let photoUrl := PhotoRef.photoUrl item in
      if bool_decide (photoUrl ∈ st.2) then pushImages rest st
      else
        imageData ← getImageAsBase64 photoUrl;
        match imageData with
        | Some d =>
            pushImages rest
              (st.1 ++ [Image.mk (PhotoRef.sender item) (ImageData.media_type d) (ImageData.data d)],
               {[photoUrl]} ∪ st.2)
        | None => pushImages rest st
        end
  end.

Definition focusPhotoRefs (f : Focus.t) : list PhotoRef.t :=
  (λ photoUrl, PhotoRef.mk photoUrl (Focus.sender f)) <$> Focus.photos f.

Definition focusQuotePhotoRefs (f : Focus.t) : list PhotoRef.t :=
  match Focus.quoteContext f with
  | Some qc =>
      (λ photoUrl, PhotoRef.mk photoUrl (Js.or_else (Quote.sender qc) "Unknown User"))
        <$> Quote.photos qc
  | None => []
  end.

Definition quoteSection (qc : Quote.t) : string :=
  Js.nl +:+ "Quote Tweet Context:" +:+ Js.nl
    +:+ "  Sender: " +:+ Js.or_else (Quote.sender qc) "Unknown User" +:+ Js.nl
    +:+ "  Time: " +:+ Quote.timestamp qc +:+ Js.nl
    +:+ "  Content: " +:+ Quote.text qc +:+ Js.nl
    +:+ "  "
    +:+ (if (0 <? length (Quote.photos qc))%nat then
           "Images: Contains " +:+ Js.of_nat (length (Quote.photos qc)) +:+ " image(s)"
         else "").

Definition focusTweetSection (tweetMemoryResult : option Memory.t) : string :=
  match tweetMemoryResult ≫= Memory.focusTweet with
  | Some f =>
      Js.nl
        +:+ "## THIS IS THE CURRENT TWEET YOU ARE REPLYING TO. GIVE YOUR FULL FOCUS TO REPLYING TO THIS TWEET."
        +:+ Js.nl
        +:+ "Sender: " +:+ Js.or_else (Focus.sender f) "Unknown User" +:+ Js.nl
        +:+ "Time: " +:+ Focus.timestamp f +:+ Js.nl
        +:+ "Content: " +:+ Focus.text f +:+ Js.nl
        +:+ match Focus.quoteContext f with
            | Some qc => quoteSection qc
            | None => ""
            end
  | None => ""
  end.

Definition imagesNote (imageContents : list Image.t) : string :=
  if (0 <? length imageContents)%nat then
    Js.nl +:+ "## IMAGES IN CONVERSATION" +:+ Js.nl
      +:+ "The following messages contain " +:+ Js.of_nat (length imageContents)
      +:+ " images that provide additional context." +:+ Js.nl
  else "".

Definition textContentOf (tweetMemoryResult : option Memory.t)
    (imageContents : list Image.t) : string :=
  let tweetMemory := Js.opt_or_else (Memory.memory <$> tweetMemoryResult) "" in
  Js.nl +:+ "# TWITTER INTERFACE" +:+ Js.nl
    +:+ "This section contains your LIVE Twitter interface featuring context you need to reply to the current tweet."
    +:+ Js.nl +:+ Js.nl
    +:+ "## RECENT CHAT HISTORY BETWEEN YOU AND "
    +:+ Js.opt_or_else (Focus.sender <$> (tweetMemoryResult ≫= Memory.focusTweet)) "THE USER"
    +:+ Js.nl
    +:+ tweetMemory +:+ Js.nl +:+ Js.nl
    +:+ focusTweetSection tweetMemoryResult +:+ Js.nl +:+ Js.nl
    +:+ imagesNote imageContents +:+ Js.nl.

(** The loops over the images of the focus tweet, of its quote context and
    of the rest of the thread, on the fresh [imageContents] and
    [processedPhotoUrls]. *)
Definition collectImages (tweetMemoryResult : option Memory.t)
  : Async (list Image.t * gset string) :=
  let st0 : list Image.t * gset string := ([], ∅) in
  match tweetMemoryResult with
  | Some r =>
      st ← match Memory.focusTweet r with
           | Some f =>
               st ← pushImages (focusPhotoRefs f) st0;
               pushImages (focusQuotePhotoRefs f) st
           | None => mret st0
           end;
      pushImages (Memory.photos r) st
  | None => mret st0
  end.

(** [recentMainTweetsContent] is a parameter the source never reads. *)
Definition assembleTwitterInterface (fuel : nat) (recentMainTweetsContent tweetId : string)
  : Async Bundle.t :=
  tweetMemoryResult ← fetchAndFormatTweetMemory fuel tweetId;
  st ← collectImages tweetMemoryResult;
  let imageContents := st.1 in
  mret {| Bundle.textContent := textContentOf tweetMemoryResult imageContents;
          Bundle.imageContents := imageContents |}.

End Program.

(** ** Vocabulary of the statements *)

(** How the upward walk from a tweet comes to an end. *)
Inductive WalkEnd : Type :=
| NoParent          (* the oldest tweet carries no parent reference *)
| ParentNotFound.   (* the platform answers [null] for its parent reference *)

(** [Ancestry W e t above]: the tweets [above], nearest parent first, are
    what the platform returns when the parent references are followed
    upward from [t], and the walk ends as [e] says. *)
Fixpoint Ancestry (W : World) (e : WalkEnd) (t : Tweet.t) (above : list Tweet.t) : Prop :=
  match above with
  | [] =>
      match e with
      | NoParent => Js.truthy (Tweet.inReplyToStatusId t) = false
      | ParentNotFound =>
          Js.truthy (Tweet.inReplyToStatusId t) = true
          ∧ getTweet W (default "" (Tweet.inReplyToStatusId t)) = Resolve None
      end
  | p :: rest =>
      Js.truthy (Tweet.inReplyToStatusId t) = true
      ∧ getTweet W (default "" (Tweet.inReplyToStatusId t)) = Resolve (Some p)
      ∧ Ancestry W e p rest
  end.

(** The identifiers requested by the walk, in the order of the requests. *)
Fixpoint walkCalls (e : WalkEnd) (t : Tweet.t) (above : list Tweet.t) : list string :=
  match above with
  | [] =>
      match e with
      | NoParent => []
      | ParentNotFound => [default "" (Tweet.inReplyToStatusId t)]
      end
  | p :: rest => default "" (Tweet.inReplyToStatusId t) :: walkCalls e p rest
  end.

(** The identifiers of the quoted tweets referenced by a list of tweets. *)
Definition quoteCalls (ts : list Tweet.t) : list string :=
  ts ≫= λ t, if Js.truthy (Tweet.quotedStatusId t)
             then [default "" (Tweet.quotedStatusId t)] else [].

(** A parsed timestamp that [toISOString] accepts. *)
Definition validDate (d : option Js.Date) : bool :=
  bool_decide (is_Some (Js.toISOString (Js.newDate d))).

(** A tweet whose conversion to a thread node goes through: its own
    timestamp is valid, and the fetch of its quoted tweet, if it has one,
    is not rejected and does not return a tweet with an invalid timestamp. *)
Definition convertible (W : World) (t : Tweet.t) : bool :=
  validDate (Tweet.timeParsed t)
  && (if Js.truthy (Tweet.quotedStatusId t) then
        match getTweet W (default "" (Tweet.quotedStatusId t)) with
        | Resolve (Some q) => validDate (Tweet.timeParsed q)
        | Resolve None => true
        | Reject _ => false
        end
      else true).

(** A tweet with an invalid timestamp, its own or that of the quoted tweet
    the platform returns for it. *)
Definition undated (W : World) (t : Tweet.t) : bool :=
  negb (validDate (Tweet.timeParsed t))
  || (Js.truthy (Tweet.quotedStatusId t)
      && match getTweet W (default "" (Tweet.quotedStatusId t)) with
         | Resolve (Some q) => negb (validDate (Tweet.timeParsed q))
         | _ => false
         end).

(** The ISO string of a valid timestamp. *)
Definition isoOf (d : option Js.Date) : string :=
  default "" (Js.toISOString (Js.newDate d)).

(** The quote context a convertible tweet ends up with. *)
Definition quoteContextOf (W : World) (t : Tweet.t) : option Quote.t :=
  if Js.truthy (Tweet.quotedStatusId t) then
    match getTweet W (default "" (Tweet.quotedStatusId t)) with
    | Resolve (Some q) =>
        Some {| Quote.sender := Js.opt_or_else (Tweet.username q) "Unknown User";
                Quote.text := Js.opt_or_else (Tweet.text q) "";
                Quote.timestamp := isoOf (Tweet.timeParsed q);
                Quote.photos := photoUrls q |}
    | _ => None
    end
  else None.

(** The thread node a convertible tweet ends up as. *)
Definition nodeOf (W : World) (isFocus : bool) (t : Tweet.t) : Node.t :=
  {| Node.sender := Js.opt_or_else (Tweet.username t) "Unknown User";
     Node.tweet_id := Tweet.id t;
     Node.text := Js.opt_or_else (Tweet.text t) "";
     Node.timestamp := isoOf (Tweet.timeParsed t);
     Node.photos := photoUrls t;
     Node.quoteContext := quoteContextOf W t;
     Node.isFocusTweet := isFocus |}.

(** An effect that is a request to the platform client, not an output. *)
Definition isFetch (e : Event) : Prop := ∃ id, e = CallGetTweet id.

(** An effect that is a printed line. *)
Definition isPrint (e : Event) : Prop := ∃ msg, e = ConsoleLog msg ∨ e = ConsoleError msg.

(** The focus tweet cannot be used: the platform client fails or answers
    not-found, or the tweet it returns lacks a username or a text. *)
Definition focusUnresolved (W : World) (tweetId : string) : Prop :=
  match getTweet W tweetId with
  | Resolve (Some t) => Js.truthy (Tweet.username t) && Js.truthy (Tweet.text t) = false
  | Resolve None => True
  | Reject _ => True
  end.

(** The text of the bundle when there is no memory result and no image. *)
Definition skeletonText : string :=
"
# TWITTER INTERFACE
This section contains your LIVE Twitter interface featuring context you need to reply to the current tweet.

## RECENT CHAT HISTORY BETWEEN YOU AND THE USER





".

(** The references a thread node contributes: its own images, and the
    images of its quote context. *)
Definition ownRefs (n : Node.t) : list PhotoRef.t :=
  (λ photoUrl, PhotoRef.mk photoUrl (Node.sender n)) <$> Node.photos n.

Definition quoteRefs (n : Node.t) : list PhotoRef.t :=
  match Node.quoteContext n with
  | Some qc => (λ photoUrl, PhotoRef.mk photoUrl (Quote.sender qc)) <$> Quote.photos qc
  | None => []
  end.

Definition nonFocus (thread : list Node.t) : list Node.t :=
  List.filter (λ n, negb (Node.isFocusTweet n)) thread.

(** The first reference to each locator; later references to it are dropped. *)
Fixpoint firstPerLocator (refs : list PhotoRef.t) : list PhotoRef.t :=
  match refs with
  | [] => []
  | r :: rest =>
      r :: List.filter (λ r', negb (String.eqb (PhotoRef.photoUrl r') (PhotoRef.photoUrl r)))
             (firstPerLocator rest)
  end.

(** The image collector as the specification words it: the own images of
    every non-focus node, then the quote-context images of every such node,
    a locator seen before being skipped. *)
Definition collector_as_specified (thread : list Node.t) : list PhotoRef.t :=
  firstPerLocator ((nonFocus thread ≫= ownRefs) ++ (nonFocus thread ≫= quoteRefs)).

(** Whether the download of a locator succeeds, and what it yields. *)
Definition fetchable (W : World) (url : string) : bool :=
  match axios_get W url with
  | Resolve _ => true
  | Reject _ => false
  end.

Definition imageDataOf (W : World) (url : string) : option ImageData.t :=
  match axios_get W url with
  | Resolve response =>
      Some (ImageData.mk (Js.opt_or_else (Response.content_type response) "image/jpeg")
              (Js.base64 (Response.data response)))
  | Reject _ => None
  end.

(** The encoded image pushed for a reference, when its download succeeds. *)
Definition encode (W : World) (r : PhotoRef.t) : option Image.t :=
  (λ d, Image.mk (PhotoRef.sender r) (ImageData.media_type d) (ImageData.data d))
    <$> imageDataOf W (PhotoRef.photoUrl r).

(** The references whose image [pushImages] pushes, given the locators
    already processed. *)
Fixpoint keptRefs (W : World) (items : list PhotoRef.t) (seen : gset string)
  : list PhotoRef.t :=
  match items with
  | [] => []
  | item :: rest =>
      if bool_decide (PhotoRef.photoUrl item ∈ seen) then keptRefs W rest seen
      else if fetchable W (PhotoRef.photoUrl item)
           then item :: keptRefs W rest ({[PhotoRef.photoUrl item]} ∪ seen)
           else keptRefs W rest seen
  end.

(** The order in which the assembler goes through the image references of a
    thread: the images of the focus tweet, those of its quote context, then
    what the collector gathered from the other nodes. *)
Definition processingOrder (W : World) (thread : list Node.t) : list PhotoRef.t :=
  match focusOf W thread with
  | Some f => focusPhotoRefs f ++ focusQuotePhotoRefs f
  | None => []
  end ++ allPhotos thread.

(** What a computation yields and emits when started on the empty log. *)
Definition outcome {A} (m : Async A) : Outcome A := (m []).1.

Definition effects {A} (m : Async A) : Log := (m []).2.

(** A computation that never reads the log: it only appends to it, and its
    outcome does not depend on what was logged before. *)
Class Framed {A} (m : Async A) : Prop :=
  framed : ∀ log, run m log = (outcome m, log ++ effects m).

(** ** A concrete platform

    A small world on which the statements below are exercised: a reply
    chain alice (1) <- bob (2) <- carol (3) with shared images, an image
    that cannot be downloaded and quoted tweets, a chain that breaks on a
    deleted parent (14 -> 5 -> 404), tweets without a parsed timestamp
    (7 and 12), a tweet with an empty text (10), a tweet with neither
    parent nor quote (13) and an identifier the platform client fails on
    (500).  The bytes of an image are the characters of its locator. *)
Module Demo.

Definition date (ms : Z) : option Js.Date := Some (Js.mkDate (Some ms)).

Definition photo (u : string) : Photo.t := Photo.mk u u.

Definition alice : Tweet.t :=
  {| Tweet.id := Some "1"; Tweet.username := Some "alice"; Tweet.text := Some "Hello";
     Tweet.timeParsed := date 1700000000000;
     Tweet.photos := Some [photo "https://img/u1"; photo "https://img/broken"];
     Tweet.inReplyToStatusId := None; Tweet.quotedStatusId := Some "9" |}.

Definition bob : Tweet.t :=
  {| Tweet.id := Some "2"; Tweet.username := Some "bob"; Tweet.text := Some "Hi";
     Tweet.timeParsed := date 1700000060000;
     Tweet.photos := Some [photo "https://img/u1"; photo "https://img/u2";
                           photo "https://img/broken"];
     Tweet.inReplyToStatusId := Some "1"; Tweet.quotedStatusId := Some "8" |}.

Definition carol : Tweet.t :=
  {| Tweet.id := Some "3"; Tweet.username := Some "carol"; Tweet.text := Some "Hey";
     Tweet.timeParsed := date 1700000120000;
     Tweet.photos := Some [photo "https://img/u1"];
     Tweet.inReplyToStatusId := Some "2"; Tweet.quotedStatusId := Some "404" |}.

(** A quoted tweet that itself quotes another one. *)
Definition dave : Tweet.t :=
  {| Tweet.id := Some "8"; Tweet.username := Some "dave"; Tweet.text := Some "Look";
     Tweet.timeParsed := date 1690000000000;
     Tweet.photos := Some [photo "https://img/u3"; photo "https://img/u1"];
     Tweet.inReplyToStatusId := None; Tweet.quotedStatusId := Some "88" |}.

Definition erin : Tweet.t :=
  {| Tweet.id := Some "9"; Tweet.username := Some "erin"; Tweet.text := Some "News";
     Tweet.timeParsed := date 1680000000000;
     Tweet.photos := Some [photo "https://img/u4"];
     Tweet.inReplyToStatusId := None; Tweet.quotedStatusId := Some "77" |}.

(** A reply whose parent has been deleted. *)
Definition frank : Tweet.t :=
  {| Tweet.id := Some "5"; Tweet.username := Some "frank"; Tweet.text := Some "Why";
     Tweet.timeParsed := date 1700000200000;
     Tweet.photos := Some [];
     Tweet.inReplyToStatusId := Some "404"; Tweet.quotedStatusId := None |}.

(** A reply to a tweet without a parsed timestamp, itself a reply to a
    deleted tweet. *)
Definition grace : Tweet.t :=
  {| Tweet.id := Some "6"; Tweet.username := Some "grace"; Tweet.text := Some "Yes";
     Tweet.timeParsed := date 1700000300000;
     Tweet.photos := None;
     Tweet.inReplyToStatusId := Some "7"; Tweet.quotedStatusId := None |}.

Definition heidi : Tweet.t :=
  {| Tweet.id := Some "7"; Tweet.username := Some "heidi"; Tweet.text := Some "No";
     Tweet.timeParsed := None;
     Tweet.photos := None;
     Tweet.inReplyToStatusId := Some "404"; Tweet.quotedStatusId := None |}.

(** A tweet with an empty text body. *)
Definition ivan : Tweet.t :=
  {| Tweet.id := Some "10"; Tweet.username := Some "ivan"; Tweet.text := Some "";
     Tweet.timeParsed := date 1700000400000;
     Tweet.photos := Some [photo "https://img/u5"];
     Tweet.inReplyToStatusId := None; Tweet.quotedStatusId := None |}.

(** A reply to a root tweet without a parsed timestamp. *)
Definition judy : Tweet.t :=
  {| Tweet.id := Some "11"; Tweet.username := Some "judy"; Tweet.text := Some "Ok";
     Tweet.timeParsed := date 1700000500000;
     Tweet.photos := None;
     Tweet.inReplyToStatusId := Some "12"; Tweet.quotedStatusId := None |}.

Definition kim : Tweet.t :=
  {| Tweet.id := Some "12"; Tweet.username := Some "kim"; Tweet.text := Some "So";
     Tweet.timeParsed := None;
     Tweet.photos := None;
     Tweet.inReplyToStatusId := None; Tweet.quotedStatusId := None |}.

(** A tweet with neither parent nor quote. *)
Definition lena : Tweet.t :=
  {| Tweet.id := Some "13"; Tweet.username := Some "lena"; Tweet.text := Some "gm";
     Tweet.timeParsed := date 0;
     Tweet.photos := Some [];
     Tweet.inReplyToStatusId := None; Tweet.quotedStatusId := None |}.

(** A reply to the reply whose parent has been deleted. *)
Definition mallory : Tweet.t :=
  {| Tweet.id := Some "14"; Tweet.username := Some "mallory"; Tweet.text := Some "Because";
     Tweet.timeParsed := date 1700000260000;
     Tweet.photos := Some [];
     Tweet.inReplyToStatusId := Some "5"; Tweet.quotedStatusId := None |}.

(** A root tweet and a reply to a deleted tweet, both quoting a tweet the
    platform client fails on. *)
Definition nina : Tweet.t :=
  {| Tweet.id := Some "15"; Tweet.username := Some "nina"; Tweet.text := Some "See";
     Tweet.timeParsed := date 1700000600000;
     Tweet.photos := Some [];
     Tweet.inReplyToStatusId := None; Tweet.quotedStatusId := Some "500" |}.

Definition oscar : Tweet.t :=
  {| Tweet.id := Some "16"; Tweet.username := Some "oscar"; Tweet.text := Some "And";
     Tweet.timeParsed := date 1700000700000;
     Tweet.photos := Some [];
     Tweet.inReplyToStatusId := Some "404"; Tweet.quotedStatusId := Some "500" |}.

Definition tweets : list (string * Tweet.t) :=
  [("1", alice); ("2", bob); ("3", carol); ("8", dave); ("9", erin); ("5", frank);
   ("6", grace); ("7", heidi); ("10", ivan); ("11", judy); ("12", kim); ("13", lena);
   ("14", mallory); ("15", nina); ("16", oscar); ("77", lena); ("88", lena)].

Definition lookup (id : string) : option Tweet.t :=
  snd <$> List.find (λ p, String.eqb p.1 id) tweets.

Definition past : Node.t :=
  {| Node.sender := "Agent"; Node.tweet_id := None; Node.text := "welcome back";
     Node.timestamp := "2023-01-01T00:00:00.000Z"; Node.photos := [];
     Node.quoteContext := None; Node.isFocusTweet := false |}.

Definition world : World :=
  {| getTweet := λ id,
       if String.eqb id "500" then Reject (ErrorObject "Request failed with status code 500")
       else Resolve (lookup id);
     getConversationWithUser := λ u, Resolve (if String.eqb u "carol" then [past] else []);
     axios_get := λ url,
       if String.eqb url "https://img/broken" then Reject (ErrorObject "Network Error")
       else Resolve (Response.mk (if String.eqb url "https://img/u2" then None
                                  else Some "image/png")
                       (list_byte_of_string url));
     formatTimestamp := λ s, s;
     TWITTER_USERNAME := Some "cypher" |}.

End Demo.

(** ** The Anthropic adapter

    [src/ai/models/adapters/AnthropicAdapter.ts]: the four methods of the
    adapter, on the fields they read.  Values the adapter passes through
    without looking at them (the parameter schema of a tool, the input of a
    tool call) are JSON values. *)

(** A JSON value, as [response.json()] and the model's API deliver it. *)
Module Json.

Inductive t : Type :=
| Null
| Bool (b : bool)
| Num (n : Z)
| Str (s : string)
| Arr (items : list t)
| Obj (fields : list (string * t)).

(** [o.k] on an object: the value of the first field named [k]; a value
    that is not an object has none of the properties the code asks for. *)
Definition field (k : string) (v : t) : option t :=
  match v with
  | Obj fields => snd <$> List.find (λ kv, String.eqb kv.1 k) fields
  | _ => None
  end.

(** [x?.k] on a value that may be [undefined]; [null?.k] is [undefined]. *)
Definition get (k : string) (v : option t) : option t :=
  match v with
  | Some Null => None
  | Some o => field k o
  | None => None
  end.

(** Truthiness of a value that may be [undefined]. *)
Definition truthy (v : option t) : bool :=
  match v with
  | None | Some Null => false
  | Some (Bool b) => b
  | Some (Num n) => negb (n =? 0)
  | Some (Str s) => negb (bool_decide (s = ""))
  | Some (Arr _) | Some (Obj _) => true
  end.

End Json.

Module Anthropic.

(** [Tool], with its [function] member. *)
Module ToolFunction.
Record t := mk { name : string; description : string; parameters : Json.t }.
End ToolFunction.

Module Tool.
Record t := mk { function : ToolFunction.t }.
End Tool.

(** [Message]: the fields of a message of the history the adapter reads. *)
Module Message.
Record t := mk { role : string; content : option string; name : option string }.
End Message.

(** The result of [buildToolChoice] when it is not [undefined]. *)
Module ToolChoice.
Record t := mk { type : string; name : string }.
End ToolChoice.

(** An element of the result of [formatTools]. *)
Module FormattedTool.
Record t := mk { name : string; description : string; input_schema : Json.t }.
End FormattedTool.

(** [{ type: 'text', text: msg.content }]. *)
Module TextBlock.
Record t := mk { type : string; text : option string }.
End TextBlock.

(** An element of [params.messages]. *)
Module ApiMessage.
Record t := mk { role : string; content : list TextBlock.t; name : option string }.
End ApiMessage.

(** The result of [buildParams]; [tools] and [tool_choice] are [None] where
    the source leaves the property unset. *)
Module Params.
Record t := mk {
  system : string;
  messages : list ApiMessage.t;
  tools : option (list FormattedTool.t);
  tool_choice : option ToolChoice.t
}.
End Params.

(** An item of [response.content]. *)
Module ContentItem.
Record t := mk {
  type : option string;
  text : option string;
  name : option string;
  input : option Json.t
}.
End ContentItem.

Module Response.
Record t := mk { content : option (list ContentItem.t) }.
End Response.

Module AiMessage.
Record t := mk { role : string; content : string }.
End AiMessage.

Module FunctionCall.
Record t := mk { functionName : option string; functionArgs : option Json.t }.
End FunctionCall.

(** The result of [processResponse]. *)
Module Processed.
Record t := mk { aiMessage : AiMessage.t; functionCall : option FunctionCall.t }.
End Processed.

Definition buildToolChoice (tools : list Tool.t) : option ToolChoice.t :=
  match tools with
  | tool :: _ => Some (ToolChoice.mk "tool" (ToolFunction.name (Tool.function tool)))
  | [] => None
  end.

Definition formatTools (tools : list Tool.t) : list FormattedTool.t :=
  (λ tool, {| FormattedTool.name := ToolFunction.name (Tool.function tool);
              FormattedTool.description := ToolFunction.description (Tool.function tool);
              FormattedTool.input_schema := ToolFunction.parameters (Tool.function tool) |})
    <$> tools.

Definition isSystem (msg : Message.t) : bool := String.eqb (Message.role msg) "system".

Definition buildParams (messageHistory : list Message.t)
    (formattedTools : list FormattedTool.t) (toolChoice : option ToolChoice.t) : Params.t :=
  let system :=
    Js.opt_or_else (List.find isSystem messageHistory ≫= Message.content) "" in
  let messages :=
    (λ msg, {| ApiMessage.role := Message.role msg;
               ApiMessage.content := [TextBlock.mk "text" (Message.content msg)];
               ApiMessage.name := Message.name msg |})
      <$> List.filter (λ msg, negb (isSystem msg)) messageHistory in
  if (0 <? length formattedTools)%nat then
    {| Params.system := system; Params.messages := messages;
       Params.tools := Some formattedTools;
       Params.tool_choice := toolChoice |}
  else
    {| Params.system := system; Params.messages := messages;
       Params.tools := None; Params.tool_choice := None |}.

Definition processResponse (response : Response.t) : Processed.t :=
  let first := Response.content response ≫= head in
  let messageText := Js.opt_or_else (first ≫= ContentItem.text) "" in
  let normalizedMessage := AiMessage.mk "assistant" messageText in
  if bool_decide (first ≫= ContentItem.type = Some "tool_use") then
    match first with
    | Some toolCall =>
        {| Processed.aiMessage := normalizedMessage;
           Processed.functionCall :=
             Some (FunctionCall.mk (ContentItem.name toolCall) (ContentItem.input toolCall)) |}
    | None => {| Processed.aiMessage := normalizedMessage; Processed.functionCall := None |}
    end
  else {| Processed.aiMessage := normalizedMessage; Processed.functionCall := None |}.

End Anthropic.

(** ** replyToTweet

    The function that follows [imageUtils.ts] in the source: it fetches the
    tweet to reply to, likes it, sends the reply, and records what it did.
    Its collaborators are imported from files that are not part of the
    source; each is a field of [Reply.World].  Values the function only
    passes on (the prepared media, the analysed context) are JSON values. *)
Module Reply.

(** The argument of [logTweet]. *)
Module TweetLog.
Record t := mk {
  tweet_id : option Json.t;
  text : string;
  tweet_type : string;
  has_media : bool;
  in_reply_to_tweet_id : string;
  created_at : string
}.
End TweetLog.

(** The argument of [logTwitterInteraction]. *)
Module Interaction.
Record t := mk {
  tweetId : string;
  userTweetText : string;
  userTweetTimestamp : string;
  userId : string;
  context : Json.t
}.
End Interaction.

(** The member of the result of [findOrCreateUserFromTweet] that is read. *)
Module UserAccounts.
Record t := mk { userId : option string }.
End UserAccounts.

(** The lines written through [Logger.log], one constructor per call in the
    source, with the value the line is built from. *)
Inductive LogLine : Type :=
| FailedToFetchTarget
| FailedToRetrieveReplyId (responseData : Json.t)
| FailedToLogReply
| FailedToProcessUser
| ReplySent (replyTweetId : option Json.t)
| ErrorSendingReply.

Inductive Event : Type :=
| GetTweet (id : string)
| PrepareMedia (mediaUrls : list string)
| Like (id : string)
| Send (text replyToTweetId : string) (mediaData : option Json.t)
| ReadJson
| LogTweet (entry : TweetLog.t) (mediaData : option Json.t)
| FindUser (tweet : Tweet.t)
| Analyze (tweet : Tweet.t)
| LogInteraction (entry : Interaction.t)
| Logged (line : LogLine).

(** The collaborators: each answers as a promise that resolves or rejects.
    [json] is the body of the response of [sendTweet], as [response.json()]
    delivers it; [now] is the clock read by [new Date()], which may depend
    on everything that has happened so far. *)
Record World := mkWorld {
  getTweet : string → Settled (option Tweet.t);
  prepareMediaData : list string → Settled (option Json.t);
  likeTweet : string → Settled unit;
  sendTweet : string → string → option Json.t → Settled (Settled Json.t);
  logTweet : TweetLog.t → option Json.t → Settled (option Json.t);
  findOrCreateUserFromTweet : Tweet.t → Settled (option UserAccounts.t);
  analyzeTweetContext : Tweet.t → Settled Json.t;
  logTwitterInteraction : Interaction.t → Settled unit;
  now : list Event → Z
}.

Definition Task (A : Type) : Type := list Event → Outcome A * list Event.

Definition run {A} (m : Task A) (log : list Event) : Outcome A * list Event := m log.

#[global] Instance Task_ret : MRet Task := λ A a log, (Fulfilled a, log).

#[global] Instance Task_bind : MBind Task := λ A B f m log,
  match m log with
  | (Fulfilled a, log') => f a log'
  | (Rejected error, log') => (Rejected error, log')
  | (Pending, log') => (Pending, log')
  end.

(** [await] of a collaborator: the call is recorded when it is issued. *)
Definition call {A} (e : Event) (r : Settled A) : Task A := λ log,
  (match r with Resolve a => Fulfilled a | Reject error => Rejected error end, log ++ [e]).

Definition throw {A} (error : Thrown) : Task A := λ log, (Rejected error, log).

Definition logger (line : LogLine) : Task unit := λ log, (Fulfilled (), log ++ [Logged line]).

(** [new Date().toISOString()]. *)
Definition nowISO (W : World) : Task string := λ log, (Fulfilled (Js.iso_of_ms (now W log)), log).

Definition try_catch {A} (m : Task A) (handler : Thrown → Task A) : Task A := λ log,
  match m log with
  | (Rejected error, log') => handler error log'
  | r => r
  end.

(** [responseData?.data?.create_tweet?.tweet_results?.result?.rest_id]. *)
Definition restId (responseData : Json.t) : option Json.t :=
  Json.get "rest_id"
    (Json.get "result"
       (Json.get "tweet_results"
          (Json.get "create_tweet" (Json.get "data" (Some responseData))))).

(** [targetTweet.timeParsed?.toISOString() || new Date().toISOString()]. *)
Definition userTweetTimestamp (W : World) (targetTweet : Tweet.t) : Task string :=
  match Tweet.timeParsed targetTweet with
  | Some d =>
      match Js.toISOString d with
      | Some s => if decide (s = "") then nowISO W else mret s
      | None => throw invalidTimeValue
      end
  | None => nowISO W
  end.

Definition replyToTweet (W : World) (replyToTweetId text : string)
    (mediaUrls : option (list string)) : Task (option Json.t) :=
  try_catch
    (targetTweet ← call (GetTweet replyToTweetId) (getTweet W replyToTweetId);
     match targetTweet with
     | Some targetTweet =>
         if Js.truthy (Tweet.username targetTweet) then
           mediaData ← match mediaUrls with
                       | Some urls => call (PrepareMedia urls) (prepareMediaData W urls)
                       | None => mret None
                       end;
           call (Like replyToTweetId) (likeTweet W replyToTweetId);;
           response ← call (Send text replyToTweetId mediaData)
                        (sendTweet W text replyToTweetId mediaData);
           responseData ← call ReadJson response;
           let replyTweetId := restId responseData in
           if Json.truthy replyTweetId then
             created_at ← nowISO W;
             let entry :=
               {| TweetLog.tweet_id := replyTweetId;
                  TweetLog.text := text;
                  TweetLog.tweet_type := "reply";
                  TweetLog.has_media := Json.truthy mediaData;
                  TweetLog.in_reply_to_tweet_id := replyToTweetId;
                  TweetLog.created_at := created_at |} in
             tweetLogResult ← call (LogTweet entry mediaData) (logTweet W entry mediaData);
             (if Json.truthy tweetLogResult then mret () else logger FailedToLogReply);;
             userAccounts ← call (FindUser targetTweet) (findOrCreateUserFromTweet W targetTweet);
             match userAccounts with
             | Some userAccounts =>
                 context ← call (Analyze targetTweet) (analyzeTweetContext W targetTweet);
                 timestamp ← userTweetTimestamp W targetTweet;
                 let interaction :=
                   {| Interaction.tweetId := replyToTweetId;
                      Interaction.userTweetText := Js.opt_or_else (Tweet.text targetTweet) "";
                      Interaction.userTweetTimestamp := timestamp;
                      Interaction.userId := Js.opt_or_else (UserAccounts.userId userAccounts) "";
                      Interaction.context := context |} in
                 call (LogInteraction interaction) (logTwitterInteraction W interaction);;
                 logger (ReplySent replyTweetId);;
                 mret replyTweetId
             | None => logger FailedToProcessUser;; mret None
             end
           else logger (FailedToRetrieveReplyId responseData);; mret None
         else logger FailedToFetchTarget;; mret None
     | None => logger FailedToFetchTarget;; mret None
     end)
    (λ error, logger ErrorSendingReply;; mret None).

End Reply.

(** ** Further platforms for the examples *)

(** Two tweets that name each other as parent, and a history store that
    fails for bob. *)
Module Loop.

Definition ping : Tweet.t :=
  {| Tweet.id := Some "a"; Tweet.username := Some "ping"; Tweet.text := Some "ping";
     Tweet.timeParsed := Demo.date 1700000000000;
     Tweet.photos := Some [];
     Tweet.inReplyToStatusId := Some "b"; Tweet.quotedStatusId := None |}.

Definition pong : Tweet.t :=
  {| Tweet.id := Some "b"; Tweet.username := Some "pong"; Tweet.text := Some "pong";
     Tweet.timeParsed := Demo.date 1700000001000;
     Tweet.photos := Some [];
     Tweet.inReplyToStatusId := Some "a"; Tweet.quotedStatusId := None |}.

Definition world : World :=
  {| getTweet := λ id,
       if String.eqb id "a" then Resolve (Some ping)
       else if String.eqb id "b" then Resolve (Some pong)
       else getTweet Demo.world id;
     getConversationWithUser := λ u,
       if String.eqb u "bob" then Reject (ErrorObject "connection refused")
       else if String.eqb u "ping" then Reject OtherValue
       else getConversationWithUser Demo.world u;
     axios_get := axios_get Demo.world;
     formatTimestamp := formatTimestamp Demo.world;
     TWITTER_USERNAME := TWITTER_USERNAME Demo.world |}.

End Loop.

(** The requests for one locator in a log. *)
Definition axiosRequests (url : string) (log : Log) : nat :=
  length (List.filter (λ e, match e with
                            | CallAxiosGet u => String.eqb u url
                            | _ => false
                            end) log).

(** The occurrences of a locator in a list of references. *)
Definition occurrences (url : string) (refs : list PhotoRef.t) : nat :=
  length (List.filter (λ r, String.eqb (PhotoRef.photoUrl r) url) refs).

(** A platform for [replyToTweet]: every collaborator answers; the user
    of tweet 7 cannot be found, and tweet 20 carries an invalid date. *)
Module ReplyDemo.

Definition sent : Json.t :=
  Json.Obj [("data",
    Json.Obj [("create_tweet",
      Json.Obj [("tweet_results",
        Json.Obj [("result", Json.Obj [("rest_id", Json.Str "999")])])])])].

Definition broken : Tweet.t :=
  {| Tweet.id := Some "20"; Tweet.username := Some "zed"; Tweet.text := Some "hm";
     Tweet.timeParsed := Some (Js.mkDate None);
     Tweet.photos := None;
     Tweet.inReplyToStatusId := None; Tweet.quotedStatusId := None |}.

Definition world : Reply.World :=
  {| Reply.getTweet := λ id,
       if String.eqb id "20" then Resolve (Some broken) else getTweet Demo.world id;
     Reply.prepareMediaData := λ urls, Resolve (Some (Json.Arr (Json.Str <$> urls)));
     Reply.likeTweet := λ _, Resolve ();
     Reply.sendTweet := λ _ _ _, Resolve (Resolve sent);
     Reply.logTweet := λ _ _, Resolve None;
     Reply.findOrCreateUserFromTweet := λ t,
       Resolve (if bool_decide (Tweet.id t = Some "7") then None
                else Some (Reply.UserAccounts.mk (Tweet.username t)));
     Reply.analyzeTweetContext := λ _, Resolve (Json.Obj []);
     Reply.logTwitterInteraction := λ _, Resolve ();
     Reply.now := λ log, 1700000000000 + Z.of_nat (length log) |}.

End ReplyDemo.

(** The reply events of a log, and the tweets it sends. *)
Definition isSend (e : Reply.Event) : bool :=
  match e with
  | Reply.Send _ _ _ => true
  | _ => false
  end.

Definition sends (log : list Reply.Event) : list Reply.Event := List.filter isSend log.

(** The reply has gone out: the target tweet is usable, the media, if any,
    are prepared, the like and the send are answered, and the body of the
    response carries the identifier [rid] of the reply. *)
Definition replySent (W : Reply.World) (replyToTweetId text : string)
    (mediaUrls : option (list string)) (t : Tweet.t) (mediaData : option Json.t)
    (rid : option Json.t) : Prop :=
  Reply.getTweet W replyToTweetId = Resolve (Some t)
  ∧ Js.truthy (Tweet.username t) = true
  ∧ match mediaUrls with
    | Some urls => Reply.prepareMediaData W urls = Resolve mediaData
    | None => mediaData = None
    end
  ∧ Reply.likeTweet W replyToTweetId = Resolve ()
  ∧ (∃ responseData,
       Reply.sendTweet W text replyToTweetId mediaData = Resolve (Resolve responseData)
       ∧ Reply.restId responseData = rid)
  ∧ Json.truthy rid = true.

(** What can still go wrong once the reply is out and makes the function
    return [null]: the user of the target tweet is not found or the lookup
    fails, or the target tweet carries an invalid date. *)
Definition lateFailure (W : Reply.World) (t : Tweet.t) : Prop :=
  Reply.findOrCreateUserFromTweet W t = Resolve None
  ∨ (∃ error, Reply.findOrCreateUserFromTweet W t = Reject error)
  ∨ ∃ d, Tweet.timeParsed t = Some d ∧ Js.toISOString d = None.

Definition isLogInteraction (e : Reply.Event) : bool :=
  match e with
  | Reply.LogInteraction _ => true
  | _ => false
  end.

(** * Properties *)

(** ** The JavaScript primitives on known values *)

Example iso_epoch : Js.iso_of_ms 0 = "1970-01-01T00:00:00.000Z".
Proof. reflexivity. Qed.

Example iso_2023 : Js.iso_of_ms 1700000000000 = "2023-11-14T22:13:20.000Z".
Proof. vm_compute. reflexivity. Qed.

Example iso_leap : Js.iso_of_ms 1709164799999 = "2024-02-28T23:59:59.999Z".
Proof. vm_compute. reflexivity. Qed.

Example iso_before_epoch : Js.iso_of_ms (-1) = "1969-12-31T23:59:59.999Z".
Proof. vm_compute. reflexivity. Qed.

Example base64_man : Js.base64 [x4d; x61; x6e]%byte = "TWFu".
Proof. reflexivity. Qed.

Example base64_ma : Js.base64 [x4d; x61]%byte = "TWE=".
Proof. reflexivity. Qed.

Example lower_agent : Js.toLowerCase "AgEnT_1" = "agent_1".
Proof. reflexivity. Qed.


(** ** Running the monad *)

Lemma run_ret {A} (a : A) log : run (mret a) log = (Fulfilled a, log).
Proof. reflexivity. Qed.

Lemma run_bind {A B} (m : Async A) (f : A → Async B) log :
  run (m ≫= f) log =
  match run m log with
  | (Fulfilled a, log') => run (f a) log'
  | (Rejected error, log') => (Rejected error, log')
  | (Pending, log') => (Pending, log')
  end.
Proof. reflexivity. Qed.

Lemma run_bind_fulfilled {A B} (m : Async A) (f : A → Async B) log a log' :
  run m log = (Fulfilled a, log') → run (m ≫= f) log = run (f a) log'.
Proof. intros H. rewrite run_bind, H. reflexivity. Qed.

Lemma run_bind_rejected {A B} (m : Async A) (f : A → Async B) log error log' :
  run m log = (Rejected error, log') → run (m ≫= f) log = (Rejected error, log').
Proof. intros H. rewrite run_bind, H. reflexivity. Qed.

Lemma run_getTweet W id log :
  run (scraper_getTweet W id) log =
  (match getTweet W id with Resolve r => Fulfilled r | Reject error => Rejected error end,
   log ++ [CallGetTweet id]).
Proof. reflexivity. Qed.

Ltac async_compute :=
  unfold console_log, console_error, emit, throw, never, await_call, run,
    mbind, Async_bind, mret, Async_ret;
  simpl.

Lemma run_try_fulfilled {A} (m : Async A) h log a log' :
  run m log = (Fulfilled a, log') → run (try_catch m h) log = (Fulfilled a, log').
Proof. unfold run, try_catch. intros ->. reflexivity. Qed.

Lemma run_try_rejected {A} (m : Async A) h log error log' :
  run m log = (Rejected error, log') → run (try_catch m h) log = run (h error) log'.
Proof. unfold run, try_catch. intros ->. reflexivity. Qed.

(** ** The upward walk *)

Lemma walk_ancestry W e above : ∀ t fuel acc log,
  Ancestry W e t above →
  (length (walkCalls e t above) ≤ fuel)%nat →
  run (walk W fuel t acc) log =
  (Fulfilled (rev above ++ acc), log ++ (CallGetTweet <$> walkCalls e t above)).
Proof.
  induction above as [|p rest IH]; intros t fuel acc log Hanc Hfuel.
  - destruct e; simpl in Hanc.
    + destruct fuel; simpl; rewrite Hanc; simpl; by rewrite app_nil_r.
    + destruct Hanc as [Ht Hnone]. destruct fuel as [|fuel]; [simpl in Hfuel; lia|].
      simpl. rewrite Ht. rewrite run_bind, run_getTweet, Hnone. reflexivity.
  - destruct Hanc as (Ht & Hp & Hrest).
    destruct fuel as [|fuel]; [simpl in Hfuel; lia|].
    simpl in Hfuel. simpl walk. rewrite Ht.
    rewrite run_bind, run_getTweet, Hp.
    rewrite (IH p fuel (p :: acc)); [|done|lia].
    simpl. rewrite <- !app_assoc. reflexivity.
Qed.

(** ** Conversion of tweets to thread nodes *)

Lemma run_isoTimestamp_valid d log :
  validDate d → run (isoTimestamp d) log = (Fulfilled (isoOf d), log).
Proof.
  unfold validDate, isoTimestamp, isoOf. intros [s Hs]%bool_decide_unpack.
  rewrite Hs. reflexivity.
Qed.

Lemma run_isoTimestamp_invalid d log :
  validDate d = false → run (isoTimestamp d) log = (Rejected invalidTimeValue, log).
Proof.
  unfold validDate, isoTimestamp. intros H%bool_decide_eq_false.
  destruct (Js.toISOString (Js.newDate d)); [|reflexivity].
  exfalso. apply H. eauto.
Qed.

Lemma quoteCalls_cons t ts : quoteCalls (t :: ts) = quoteCalls [t] ++ quoteCalls ts.
Proof. unfold quoteCalls. simpl. by rewrite app_nil_r. Qed.

Lemma quoteCalls_app ts1 ts2 : quoteCalls (ts1 ++ ts2) = quoteCalls ts1 ++ quoteCalls ts2.
Proof. unfold quoteCalls. apply bind_app. Qed.

Lemma run_resolveQuote_ok W t log :
  convertible W t →
  run (resolveQuote W t) log =
  (Fulfilled (quoteContextOf W t), log ++ (CallGetTweet <$> quoteCalls [t])).
Proof.
  unfold convertible, resolveQuote, quoteContextOf, quoteCalls.
  intros [_ Hq]%andb_prop_elim. simpl.
  destruct (Js.truthy (Tweet.quotedStatusId t)); [|by rewrite run_ret, app_nil_r].
  rewrite run_bind, run_getTweet.
  destruct (getTweet W (default "" (Tweet.quotedStatusId t))) as [[q|]|]; [| |done].
  - rewrite run_bind, run_isoTimestamp_valid by done. reflexivity.
  - reflexivity.
Qed.

Lemma run_threadNode_ok W isFocus t log :
  convertible W t →
  run (threadNode isFocus t (quoteContextOf W t)) log = (Fulfilled (nodeOf W isFocus t), log).
Proof.
  unfold convertible, threadNode. intros [Hd _]%andb_prop_elim.
  rewrite run_bind, run_isoTimestamp_valid by done. reflexivity.
Qed.

Lemma run_parentNode_ok W t log :
  convertible W t →
  run (parentNode W t) log =
  (Fulfilled (nodeOf W false t), log ++ (CallGetTweet <$> quoteCalls [t])).
Proof.
  intros H. unfold parentNode.
  rewrite (run_bind_fulfilled _ _ _ _ _ (run_resolveQuote_ok W t log H)).
  by apply run_threadNode_ok.
Qed.

Lemma run_promise_all_ok W ts : ∀ log,
  Forall (convertible W) ts →
  run (promise_all_map (parentNode W) ts) log =
  (Fulfilled (nodeOf W false <$> ts), log ++ (CallGetTweet <$> quoteCalls ts)).
Proof.
  induction ts as [|t ts IH]; intros log Hall.
  - simpl. by rewrite run_ret, app_nil_r.
  - apply Forall_cons in Hall as [Ht Hts].
    rewrite quoteCalls_cons, fmap_app, app_assoc.
    specialize (IH (log ++ (CallGetTweet <$> quoteCalls [t])) Hts).
    pose proof (run_parentNode_ok W t log Ht) as Hp.
    unfold run in *. simpl. rewrite Hp, IH. reflexivity.
Qed.

(** The thread of a focus tweet whose walk comes to an end and whose
    tweets are all convertible, with the requests made on the way. *)
Lemma thread_of_ancestry W e fuel tweetId focus above log :
  getTweet W tweetId = Resolve (Some focus) →
  Ancestry W e focus above →
  Forall (convertible W) (focus :: above) →
  (length (walkCalls e focus above) ≤ fuel)%nat →
  run (getConversationThread W fuel tweetId) log =
  (Fulfilled ((nodeOf W false <$> rev above) ++ [nodeOf W true focus]),
   log ++ (CallGetTweet <$>
             tweetId :: walkCalls e focus above ++ quoteCalls (rev above ++ [focus]))).
Proof.
  intros Hfocus Hanc [Hf Habove]%Forall_cons Hfuel.
  unfold getConversationThread. apply run_try_fulfilled.
  rewrite run_bind, run_getTweet, Hfocus.
  erewrite run_bind_fulfilled; [|by apply (walk_ancestry W e above)].
  rewrite app_nil_r.
  erewrite run_bind_fulfilled; [|apply run_promise_all_ok; by apply Forall_rev].
  erewrite run_bind_fulfilled; [|by apply run_resolveQuote_ok].
  erewrite run_bind_fulfilled; [|by apply run_threadNode_ok].
  rewrite run_ret. f_equal.
  rewrite quoteCalls_app, fmap_cons, !fmap_app, <- !app_assoc. reflexivity.
Qed.

(** ** Computations only append to the log *)

Section Framing.

Context (W : World).

#[local] Instance framed_ret {A} (a : A) : Framed (mret a : Async A).
Proof. intros log. unfold outcome, effects, run. simpl. by rewrite app_nil_r. Qed.

#[local] Instance framed_throw {A} error : Framed (@throw A error).
Proof. intros log. unfold outcome, effects, run, throw. simpl. by rewrite app_nil_r. Qed.

#[local] Instance framed_never {A} : Framed (@never A).
Proof. intros log. unfold outcome, effects, run, never. simpl. by rewrite app_nil_r. Qed.

#[local] Instance framed_emit e : Framed (emit e).
Proof. intros log. reflexivity. Qed.

#[local] Instance framed_await_call {A} e (r : Settled A) : Framed (await_call e r).
Proof. intros log. reflexivity. Qed.

#[local] Instance framed_bind {A B} (m : Async A) (f : A → Async B) :
  Framed m → (∀ a, Framed (f a)) → Framed (m ≫= f).
Proof.
  intros Hm Hf log. unfold outcome, effects.
  change ((m ≫= f) []) with (run (m ≫= f) []).
  rewrite !run_bind, (Hm log), (Hm []). simpl.
  destruct (outcome m) as [a| |]; try reflexivity.
  rewrite (Hf a (log ++ effects m)), (Hf a (effects m)). simpl.
  by rewrite app_assoc.
Qed.

#[local] Instance framed_try_catch {A} (m : Async A) h :
  Framed m → (∀ error, Framed (h error)) → Framed (try_catch m h).
Proof.
  intros Hm Hh log. unfold outcome, effects, run, try_catch.
  pose proof (Hm log) as H1. pose proof (Hm []) as H2. unfold run in H1, H2.
  rewrite H1, H2. simpl.
  destruct (outcome m) as [a|error|]; try reflexivity.
  pose proof (Hh error (log ++ effects m)) as H3. pose proof (Hh error (effects m)) as H4.
  unfold run in H3, H4. rewrite H3, H4. simpl. by rewrite app_assoc.
Qed.

#[local] Instance framed_promise_all_map {A B} (f : A → Async B) l :
  (∀ a, Framed (f a)) → Framed (promise_all_map f l).
Proof.
  intros Hf. induction l as [|x r IH]; [apply _|].
  intros log. unfold outcome, effects, run. simpl.
  pose proof (Hf x log) as H1. pose proof (Hf x []) as H2. unfold run in H1, H2.
  rewrite H1, H2. simpl.
  pose proof (IH (log ++ effects (f x))) as H3. pose proof (IH (effects (f x))) as H4.
  unfold run in H3, H4. rewrite H3, H4. simpl. by rewrite app_assoc.
Qed.

#[local] Instance framed_getTweet id : Framed (scraper_getTweet W id).
Proof. apply _. Qed.

#[local] Instance framed_getImageAsBase64 url : Framed (getImageAsBase64 W url).
Proof. unfold getImageAsBase64, console_error. apply _. Qed.

#[local] Instance framed_isoTimestamp d : Framed (isoTimestamp d).
Proof. unfold isoTimestamp. destruct (Js.toISOString _); apply _. Qed.

#[local] Instance framed_walk fuel : ∀ t acc, Framed (walk W fuel t acc).
Proof.
  induction fuel as [|fuel IH]; intros t acc; simpl;
    destruct (Js.truthy _); try apply _.
  apply framed_bind; [apply _|]. intros [p|]; [apply IH|apply _].
Qed.

#[local] Instance framed_resolveQuote t : Framed (resolveQuote W t).
Proof.
  unfold resolveQuote. destruct (Js.truthy _); [|apply _].
  apply framed_bind; [apply _|]. intros [q|]; apply _.
Qed.

#[local] Instance framed_threadNode b t qc : Framed (threadNode b t qc).
Proof. unfold threadNode. apply _. Qed.

#[local] Instance framed_parentNode t : Framed (parentNode W t).
Proof. unfold parentNode. apply _. Qed.

#[local] Instance framed_getConversationThread fuel id :
  Framed (getConversationThread W fuel id).
Proof.
  unfold getConversationThread, console_error.
  apply framed_try_catch; [|apply _].
  apply framed_bind; [apply _|]. intros [t|]; apply _.
Qed.

#[local] Instance framed_fetchAndFormatTweetMemory fuel id :
  Framed (fetchAndFormatTweetMemory W fuel id).
Proof.
  unfold fetchAndFormatTweetMemory, console_log, console_error.
  apply framed_try_catch; [|intros [message|]; apply _].
  apply framed_bind; [apply _|]. intros t.
  destruct (_ && _); apply _.
Qed.

#[local] Instance framed_pushImages items : ∀ st, Framed (pushImages W items st).
Proof.
  induction items as [|item rest IH]; intros st; simpl; [apply _|].
  destruct (bool_decide _); [apply IH|].
  apply framed_bind; [apply _|]. intros [d|]; apply IH.
Qed.

#[local] Instance framed_collectImages r : Framed (collectImages W r).
Proof.
  unfold collectImages. destruct r as [r|]; [|apply _].
  apply framed_bind; [|apply _]. destruct (Memory.focusTweet r); apply _.
Qed.

Lemma framed_assembleTwitterInterface fuel recent id :
  Framed (assembleTwitterInterface W fuel recent id).
Proof. unfold assembleTwitterInterface. apply _. Qed.

End Framing.

(** ** The thread walker *)

Lemma length_walkCalls e above : ∀ t,
  length (walkCalls e t above) =
  (length above + match e with NoParent => 0 | ParentNotFound => 1 end)%nat.
Proof. induction above as [|p r IH]; intros t; simpl; [by destruct e|by rewrite IH]. Qed.

Lemma walkCalls_fetches e t above tweetId qs :
  Forall isFetch (CallGetTweet <$> tweetId :: walkCalls e t above ++ qs).
Proof. apply Forall_fmap, Forall_true. intros id. by exists id. Qed.

(** C6 (amended).  When the [N] parents above the focus tweet all resolve,
    the oldest one has no parent reference, every tweet of the chain is
    convertible (valid timestamps, no rejected quote fetch) and the walk is
    given fuel for [N] steps, [getConversationThread] is fulfilled with
    [N + 1] nodes: the parents from the oldest to the nearest, then the
    focus tweet, which is the last node and the only one flagged
    [isFocusTweet]. *)
Theorem resolvable_chain_thread W fuel tweetId focus above log :
  getTweet W tweetId = Resolve (Some focus) →
  Ancestry W NoParent focus above →
  Forall (convertible W) (focus :: above) →
  (length above ≤ fuel)%nat →
  ∃ nodes events,
    run (getConversationThread W fuel tweetId) log = (Fulfilled nodes, log ++ events)
    ∧ length nodes = S (length above)
    ∧ nodes = (nodeOf W false <$> rev above) ++ [nodeOf W true focus]
    ∧ last nodes = Some (nodeOf W true focus)
    ∧ List.filter Node.isFocusTweet nodes = [nodeOf W true focus].
Proof.
  intros Hfocus Hanc Hconv Hfuel.
  eexists _, _. split.
  - apply (thread_of_ancestry W NoParent); try done.
    rewrite length_walkCalls. lia.
  - repeat split.
    + rewrite length_app, length_fmap, length_rev. simpl. lia.
    + apply last_snoc.
    + rewrite List.filter_app. simpl.
      replace (List.filter Node.isFocusTweet (nodeOf W false <$> rev above)) with (@nil Node.t);
        [done|].
      induction (rev above) as [|x l IH]; [done|]. simpl. apply IH.
Qed.

Lemma resolvable_chain_thread_witness :
  ∃ nodes events,
    run (getConversationThread Demo.world 2 "3") [] = (Fulfilled nodes, [] ++ events)
    ∧ length nodes = 3%nat
    ∧ nodes = (nodeOf Demo.world false <$> [Demo.alice; Demo.bob])
              ++ [nodeOf Demo.world true Demo.carol]
    ∧ last nodes = Some (nodeOf Demo.world true Demo.carol)
    ∧ List.filter Node.isFocusTweet nodes = [nodeOf Demo.world true Demo.carol].
Proof.
  apply (resolvable_chain_thread Demo.world 2 "3" Demo.carol [Demo.bob; Demo.alice] []).
  - reflexivity.
  - simpl. repeat split; reflexivity.
  - repeat constructor; vm_compute; exact I.
  - simpl. lia.
Defined.

(** C6 (as stated) fails: the single parent of tweet 11 resolves and has no
    parent of its own, but it carries no parsed timestamp, and the walker
    returns no node at all instead of two.  Likewise tweet 15 has no parent
    at all, the fetch of the tweet it quotes is rejected, and the walker
    returns no node instead of one. *)
Lemma resolvable_chain_counterexample :
  run (getConversationThread Demo.world 5 "11") [] =
    (Fulfilled [],
     [CallGetTweet "11"; CallGetTweet "12";
      ConsoleError "Error fetching conversation thread:"])
  ∧ Ancestry Demo.world NoParent Demo.nina []
  ∧ run (getConversationThread Demo.world 5 "15") [] =
    (Fulfilled [],
     [CallGetTweet "15"; CallGetTweet "500";
      ConsoleError "Error fetching conversation thread:"])
  ∧ ¬ (∀ focus above,
         getTweet Demo.world "11" = Resolve (Some focus) →
         Ancestry Demo.world NoParent focus above →
         ∃ nodes log',
           run (getConversationThread Demo.world 5 "11") [] = (Fulfilled nodes, log')
           ∧ length nodes = S (length above)).
Proof.
  split; [reflexivity|]. split; [reflexivity|]. split; [reflexivity|].
  intros H.
  destruct (H Demo.judy [Demo.kim]) as (nodes & log' & Hrun & Hlen).
  - reflexivity.
  - simpl. repeat split; reflexivity.
  - vm_compute in Hrun. inversion Hrun; subst. discriminate Hlen.
Qed.

(** C5 (amended).  When the walk ends on a parent reference for which the
    platform answers not-found, every tweet resolved so far is convertible
    and the walk has fuel for its requests, [getConversationThread] is
    fulfilled with the resolved parents, oldest first, followed by the
    focus tweet; nothing is thrown to the caller and nothing is printed:
    the only effects are the fetches. *)
Theorem broken_chain_keeps_partial W fuel tweetId focus above log :
  getTweet W tweetId = Resolve (Some focus) →
  Ancestry W ParentNotFound focus above →
  Forall (convertible W) (focus :: above) →
  (length above < fuel)%nat →
  ∃ events,
    run (getConversationThread W fuel tweetId) log =
      (Fulfilled ((nodeOf W false <$> rev above) ++ [nodeOf W true focus]), log ++ events)
    ∧ Forall isFetch events.
Proof.
  intros Hfocus Hanc Hconv Hfuel.
  eexists. split.
  - apply (thread_of_ancestry W ParentNotFound); try done.
    rewrite length_walkCalls. lia.
  - apply walkCalls_fetches.
Qed.

Lemma broken_chain_keeps_partial_witness :
  ∃ events,
    run (getConversationThread Demo.world 2 "14") [] =
      (Fulfilled ((nodeOf Demo.world false <$> [Demo.frank])
                  ++ [nodeOf Demo.world true Demo.mallory]), [] ++ events)
    ∧ Forall isFetch events.
Proof.
  apply (broken_chain_keeps_partial Demo.world 2 "14" Demo.mallory [Demo.frank] []).
  - reflexivity.
  - simpl. repeat split; reflexivity.
  - repeat constructor; vm_compute; exact I.
  - simpl. lia.
Defined.

(** C5 (as stated) fails: the parent of tweet 6 resolves, the parent of
    that parent does not, and the resolved parent carries no parsed
    timestamp; the walker returns no node, neither the resolved parent nor
    the focus tweet.  Likewise the parent of tweet 16 is not found, the
    fetch of the tweet it quotes is rejected, and the walker returns no
    node, not even the focus tweet. *)
Lemma broken_chain_counterexample :
  run (getConversationThread Demo.world 5 "6") [] =
    (Fulfilled [],
     [CallGetTweet "6"; CallGetTweet "7"; CallGetTweet "404";
      ConsoleError "Error fetching conversation thread:"])
  ∧ Ancestry Demo.world ParentNotFound Demo.oscar []
  ∧ run (getConversationThread Demo.world 5 "16") [] =
    (Fulfilled [],
     [CallGetTweet "16"; CallGetTweet "404"; CallGetTweet "500";
      ConsoleError "Error fetching conversation thread:"])
  ∧ ¬ (∀ focus above,
         getTweet Demo.world "6" = Resolve (Some focus) →
         Ancestry Demo.world ParentNotFound focus above →
         ∃ nodes log',
           run (getConversationThread Demo.world 5 "6") [] = (Fulfilled nodes, log')
           ∧ length nodes = S (length above)).
Proof.
  split; [reflexivity|]. split; [by split|]. split; [reflexivity|].
  intros H.
  destruct (H Demo.grace [Demo.heidi]) as (nodes & log' & Hrun & Hlen).
  - reflexivity.
  - simpl. repeat split; reflexivity.
  - vm_compute in Hrun. inversion Hrun; subst. discriminate Hlen.
Qed.

(** ** The quote resolver *)

Lemma run_resolveQuote_absent W t log :
  getTweet W (default "" (Tweet.quotedStatusId t)) = Resolve None →
  run (resolveQuote W t) log = (Fulfilled None, log ++ (CallGetTweet <$> quoteCalls [t])).
Proof.
  intros Hq. unfold resolveQuote, quoteCalls. simpl.
  destruct (Js.truthy (Tweet.quotedStatusId t)); [|by rewrite run_ret, app_nil_r].
  rewrite run_bind, run_getTweet, Hq. reflexivity.
Qed.

(** C7 (amended).  On a thread that is produced (the walk comes to an end,
    every tweet is convertible, the fuel suffices; by [thread_nonempty_inv]
    no thread is returned otherwise), the requests made after the walk are
    exactly the quoted-tweet references of the nodes, one request per node
    that has one, in thread order, the focus tweet last: no request is made
    for the quote reference of a quoted tweet.  Every node carries the
    context of its own quoted tweet, and a quoted tweet the platform does
    not find leaves the context absent while the resolver is fulfilled. *)
Theorem quote_resolution_depth_one W e fuel tweetId focus above log :
  getTweet W tweetId = Resolve (Some focus) →
  Ancestry W e focus above →
  Forall (convertible W) (focus :: above) →
  (length (walkCalls e focus above) ≤ fuel)%nat →
  ∃ nodes,
    run (getConversationThread W fuel tweetId) log =
      (Fulfilled nodes,
       log ++ (CallGetTweet <$>
                 tweetId :: walkCalls e focus above ++ quoteCalls (rev above ++ [focus])))
    ∧ Forall2 (λ t n, Node.quoteContext n = quoteContextOf W t) (rev above ++ [focus]) nodes
    ∧ (∀ t, t ∈ rev above ++ [focus] →
            getTweet W (default "" (Tweet.quotedStatusId t)) = Resolve None →
            quoteContextOf W t = None
            ∧ ∀ log0, run (resolveQuote W t) log0 =
                        (Fulfilled None, log0 ++ (CallGetTweet <$> quoteCalls [t]))).
Proof.
  intros Hfocus Hanc Hconv Hfuel.
  eexists. split; [by apply (thread_of_ancestry W e)|]. split.
  - apply Forall2_app.
    + apply Forall2_fmap_r, Forall_Forall2_diag, Forall_true. done.
    + by constructor.
  - intros t _ Hq. split.
    + unfold quoteContextOf. rewrite Hq. by destruct (Js.truthy _).
    + intros log0. by apply run_resolveQuote_absent.
Qed.

Lemma quote_resolution_depth_one_witness :
  ∃ nodes,
    run (getConversationThread Demo.world 2 "3") [] =
      (Fulfilled nodes,
       [] ++ (CallGetTweet <$> ["3"; "2"; "1"; "9"; "8"; "404"]))
    ∧ Forall2 (λ t n, Node.quoteContext n = quoteContextOf Demo.world t)
        [Demo.alice; Demo.bob; Demo.carol] nodes
    ∧ (∀ t, t ∈ [Demo.alice; Demo.bob; Demo.carol] →
            getTweet Demo.world (default "" (Tweet.quotedStatusId t)) = Resolve None →
            quoteContextOf Demo.world t = None
            ∧ ∀ log0, run (resolveQuote Demo.world t) log0 =
                        (Fulfilled None, log0 ++ (CallGetTweet <$> quoteCalls [t]))).
Proof.
  apply (quote_resolution_depth_one Demo.world NoParent 2 "3" Demo.carol
           [Demo.bob; Demo.alice] []).
  - reflexivity.
  - simpl. repeat split; reflexivity.
  - repeat constructor; vm_compute; exact I.
  - simpl. lia.
Defined.

(** C7 (as stated) fails: tweet 15 has no parent and quotes tweet 500, on
    which the platform client fails.  The quote cannot be resolved, and
    the walker does not return the node of tweet 15 with an absent quote
    context: the rejection reaches the handler, which prints its line and
    returns no node at all. *)
Lemma quote_resolution_counterexample :
  Ancestry Demo.world NoParent Demo.nina []
  ∧ validDate (Tweet.timeParsed Demo.nina)
  ∧ getTweet Demo.world (default "" (Tweet.quotedStatusId Demo.nina)) =
      Reject (ErrorObject "Request failed with status code 500")
  ∧ run (getConversationThread Demo.world 5 "15") [] =
      (Fulfilled [],
       [CallGetTweet "15"; CallGetTweet "500";
        ConsoleError "Error fetching conversation thread:"])
  ∧ ¬ (∀ focus above,
         getTweet Demo.world "15" = Resolve (Some focus) →
         Ancestry Demo.world NoParent focus above →
         (length (walkCalls NoParent focus above) ≤ 5)%nat →
         ∃ nodes log',
           run (getConversationThread Demo.world 5 "15") [] = (Fulfilled nodes, log')
           ∧ Forall2 (λ t n, Node.quoteContext n = quoteContextOf Demo.world t)
               (rev above ++ [focus]) nodes
           ∧ Forall isFetch log').
Proof.
  split; [reflexivity|]. split; [vm_compute; exact I|]. split; [reflexivity|].
  split; [reflexivity|].
  intros H.
  destruct (H Demo.nina []) as (nodes & log' & Hrun & Hnodes & Hlog).
  - reflexivity.
  - reflexivity.
  - simpl. lia.
  - vm_compute in Hrun. inversion Hrun; subst. inversion Hnodes.
Qed.

(** ** Tweets without a timestamp *)

Lemma nodeFor_not_pending W b t log :
  (run (resolveQuote W t ≫= threadNode b t) log).1 ≠ Pending.
Proof.
  unfold resolveQuote, threadNode, isoTimestamp.
  rewrite run_bind.
  destruct (Js.truthy (Tweet.quotedStatusId t)).
  - rewrite run_bind, run_getTweet.
    destruct (getTweet W _) as [[q|]|]; simpl; try done.
    + destruct (Js.toISOString (Js.newDate (Tweet.timeParsed q))); simpl; try done.
      destruct (Js.toISOString (Js.newDate (Tweet.timeParsed t))); simpl; done.
    + destruct (Js.toISOString (Js.newDate (Tweet.timeParsed t))); simpl; done.
  - simpl. destruct (Js.toISOString (Js.newDate (Tweet.timeParsed t))); simpl; done.
Qed.

Lemma nodeFor_undated W b t log :
  undated W t → ∃ error, (run (resolveQuote W t ≫= threadNode b t) log).1 = Rejected error.
Proof.
  unfold undated, validDate, resolveQuote, threadNode, isoTimestamp.
  intros Hu. rewrite run_bind.
  destruct (Js.truthy (Tweet.quotedStatusId t));
    [rewrite run_bind, run_getTweet; destruct (getTweet W _) as [[q|]|]|]; simpl;
    repeat (match goal with
            | |- context [Js.toISOString ?d] => destruct (Js.toISOString d)
            end; simpl);
    eauto.
  all: exfalso; revert Hu; simpl; rewrite ?bool_decide_eq_true_2 by eauto; done.
Qed.

Lemma parentNode_not_pending W t log : (run (parentNode W t) log).1 ≠ Pending.
Proof. apply (nodeFor_not_pending W false). Qed.

Lemma parentNode_undated W t log :
  undated W t → ∃ error, (run (parentNode W t) log).1 = Rejected error.
Proof. apply (nodeFor_undated W false). Qed.

Lemma promise_all_not_pending W ts : ∀ log,
  (run (promise_all_map (parentNode W) ts) log).1 ≠ Pending.
Proof.
  induction ts as [|t ts IH]; intros log; [done|].
  unfold run. simpl.
  pose proof (parentNode_not_pending W t log) as Ht. unfold run in Ht.
  destruct (parentNode W t log) as [ox log1]. simpl in Ht.
  specialize (IH log1). unfold run in IH.
  destruct (promise_all_map (parentNode W) ts log1) as [ors log2]. simpl in IH.
  destruct ox, ors; simpl; done.
Qed.

Lemma promise_all_undated W ts : ∀ log,
  Exists (undated W) ts →
  ∃ error, (run (promise_all_map (parentNode W) ts) log).1 = Rejected error.
Proof.
  induction ts as [|t ts IH]; intros log Hex; [by apply Exists_nil in Hex|].
  unfold run. simpl.
  pose proof (parentNode_not_pending W t log) as Hnp.
  pose proof (parentNode_undated W t log) as Hu.
  unfold run in Hnp, Hu.
  destruct (parentNode W t log) as [ox log1]. simpl in Hnp, Hu.
  pose proof (promise_all_not_pending W ts log1) as Hnp'.
  specialize (IH log1). unfold run in IH, Hnp'.
  destruct (promise_all_map (parentNode W) ts log1) as [ors log2]. simpl in IH, Hnp'.
  apply Exists_cons in Hex as [Hhd|Htl].
  - destruct (Hu Hhd) as [error ->]. destruct ors; simpl; eauto.
  - destruct (IH Htl) as [error ->]. destruct ox; simpl; eauto. done.
Qed.

Lemma run_bind_assoc {A B C} (m : Async A) (f : A → Async B) (g : B → Async C) log :
  run (m ≫= (λ a, f a ≫= g)) log = run ((m ≫= f) ≫= g) log.
Proof.
  rewrite !run_bind. destruct (run m log) as [[a|error|] log']; reflexivity.
Qed.

Lemma run_rejected_framed {A} (m : Async A) log error :
  Framed m → (run m log).1 = Rejected error →
  run m log = (Rejected error, log ++ effects m).
Proof. intros Hm. rewrite (Hm log). simpl. by intros ->. Qed.

(** C9.  When the walk from the focus tweet comes to an end and one of the
    tweets it resolved (the focus tweet, a parent, or the quoted tweet the
    platform returns for one of them) has no valid parsed timestamp, the
    conversion to an ISO string throws, the handler of
    [getConversationThread] prints its message and the function is
    fulfilled with the empty array: none of the resolved tweets is kept. *)
Theorem undated_tweet_discards_thread W e fuel tweetId focus above log :
  getTweet W tweetId = Resolve (Some focus) →
  Ancestry W e focus above →
  (length (walkCalls e focus above) ≤ fuel)%nat →
  Exists (undated W) (focus :: above) →
  run (isoTimestamp None) log = (Rejected invalidTimeValue, log)
  ∧ ∃ events,
      run (getConversationThread W fuel tweetId) log =
        (Fulfilled [], log ++ events ++ [ConsoleError "Error fetching conversation thread:"]).
Proof.
  intros Hfocus Hanc Hfuel Hex. split; [reflexivity|].
  unfold getConversationThread.
  cut (∃ error events,
         run (focusTweet ← scraper_getTweet W tweetId;
              match focusTweet with
              | Some focusTweet =>
                  parentTweets ← walk W fuel focusTweet [];
                  conversation ← promise_all_map (parentNode W) parentTweets;
                  focusTweetQuoteContext ← resolveQuote W focusTweet;
                  focusNode ← threadNode true focusTweet focusTweetQuoteContext;
                  mret (conversation ++ [focusNode])
              | None => console_error "Tweet not found.";; mret []
              end) log = (Rejected error, log ++ events)).
  { intros (error & events & Hbody). exists events.
    erewrite run_try_rejected by exact Hbody.
    rewrite app_assoc. reflexivity. }
  rewrite run_bind, run_getTweet, Hfocus.
  erewrite run_bind_fulfilled; [|by apply (walk_ancestry W e above)].
  rewrite app_nil_r, run_bind.
  set (log1 := (log ++ [CallGetTweet tweetId]) ++ (CallGetTweet <$> walkCalls e focus above)).
  pose proof (framed_promise_all_map (parentNode W) (rev above) (framed_parentNode W) log1)
    as Hall.
  pose proof (promise_all_not_pending W (rev above) log1) as Hnp.
  pose proof (promise_all_undated W (rev above) log1) as Hund.
  rewrite Hall in Hnp, Hund |- *. simpl in Hnp, Hund.
  destruct (outcome (promise_all_map (parentNode W) (rev above))) as [conv|error|];
    [|eexists _, _; unfold log1; rewrite <- !app_assoc; reflexivity|done].
  apply Exists_cons in Hex as [Hf|Habove];
    [|by destruct (Hund (Exists_rev Habove))].
  rewrite (run_bind_assoc (resolveQuote W focus) (threadNode true focus)).
  destruct (nodeFor_undated W true focus
              (log1 ++ effects (promise_all_map (parentNode W) (rev above))) Hf)
    as [error Herr].
  erewrite run_bind_rejected; last first.
  { apply run_rejected_framed; [|exact Herr].
    apply framed_bind; [apply framed_resolveQuote|intros; apply framed_threadNode]. }
  eexists _, _. unfold log1. rewrite <- !app_assoc. reflexivity.
Qed.

Lemma undated_tweet_discards_thread_witness :
  run (isoTimestamp None) [] = (Rejected invalidTimeValue, [])
  ∧ ∃ events,
      run (getConversationThread Demo.world 2 "6") [] =
        (Fulfilled [], [] ++ events ++ [ConsoleError "Error fetching conversation thread:"]).
Proof.
  apply (undated_tweet_discards_thread Demo.world ParentNotFound 2 "6" Demo.grace
           [Demo.heidi] []).
  - reflexivity.
  - simpl. repeat split; reflexivity.
  - simpl. lia.
  - apply Exists_cons_tl, Exists_cons_hd. vm_compute. exact I.
Defined.

(** ** A focus tweet that cannot be used *)

Example skeleton_text : textContentOf None [] = skeletonText.
Proof. reflexivity. Qed.

Lemma fetch_null W fuel tweetId log :
  match getTweet W tweetId with
  | Resolve (Some t) => Js.truthy (Tweet.username t) && Js.truthy (Tweet.text t) = false
  | Resolve None => True
  | Reject _ => False
  end →
  run (fetchAndFormatTweetMemory W fuel tweetId) log =
  (Fulfilled None,
   log ++ [CallGetTweet tweetId;
           ConsoleLog ("❌ Failed to fetch tweet, username, or text for tweet " +:+ tweetId)]).
Proof.
  intros H. unfold fetchAndFormatTweetMemory. apply run_try_fulfilled.
  rewrite run_bind, run_getTweet.
  destruct (getTweet W tweetId) as [[t|]|]; [| |done].
  - simpl. rewrite H. async_compute. by rewrite <- app_assoc.
  - async_compute. by rewrite <- app_assoc.
Qed.

Lemma fetch_rejected W fuel tweetId error log :
  getTweet W tweetId = Reject error →
  run (fetchAndFormatTweetMemory W fuel tweetId) log =
  (Fulfilled None,
   log ++ [CallGetTweet tweetId;
           ConsoleLog match error with
                      | ErrorObject message => "❌ Error fetching memory context: " +:+ message
                      | OtherValue => "❌ An unknown error occurred"
                      end;
           ConsoleError ""]).
Proof.
  intros H. unfold fetchAndFormatTweetMemory.
  erewrite run_try_rejected; [|by rewrite run_bind, run_getTweet, H].
  destruct error; async_compute; by rewrite <- !app_assoc.
Qed.

Lemma fetch_unresolved W fuel tweetId log :
  focusUnresolved W tweetId →
  ∃ events, run (fetchAndFormatTweetMemory W fuel tweetId) log = (Fulfilled None, log ++ events).
Proof.
  unfold focusUnresolved. intros H.
  destruct (getTweet W tweetId) as [r|error] eqn:Hget.
  - eexists. apply fetch_null. by rewrite Hget.
  - eexists. by apply (fetch_rejected W fuel tweetId error).
Qed.

(** C10.  [fetchAndFormatTweetMemory] is fulfilled with [null] when the
    focus tweet cannot be fetched (the platform client fails or answers
    not-found) and also when the tweet it returns has no username, no text,
    or an empty text.  In each of these cases the fetch of the focus tweet
    is the only call made: what follows it is printed output. *)
Theorem unusable_focus_yields_null W fuel tweetId log :
  ((∃ error, getTweet W tweetId = Reject error)
   ∨ getTweet W tweetId = Resolve None
   ∨ ∃ t, getTweet W tweetId = Resolve (Some t)
          ∧ (Tweet.username t = None ∨ Tweet.text t = None ∨ Tweet.text t = Some "")) →
  ∃ printed,
    run (fetchAndFormatTweetMemory W fuel tweetId) log =
      (Fulfilled None, log ++ CallGetTweet tweetId :: printed)
    ∧ Forall isPrint printed.
Proof.
  intros [[error H]|H].
  - eexists. split; [by apply (fetch_rejected W fuel tweetId error)|].
    repeat constructor; eexists; eauto.
  - eexists. split.
    + apply fetch_null.
      destruct H as [->|(t & -> & Ht)]; [done|].
      destruct Ht as [->|[->| ->]]; simpl; [done| |]; apply andb_false_r.
    + repeat constructor; eexists; eauto.
Qed.

Lemma unusable_focus_yields_null_witness :
  ∃ printed,
    run (fetchAndFormatTweetMemory Demo.world 5 "10") [] =
      (Fulfilled None, [] ++ CallGetTweet "10" :: printed)
    ∧ Forall isPrint printed.
Proof.
  apply (unusable_focus_yields_null Demo.world 5 "10" []).
  right. right. exists Demo.ivan. split; [reflexivity|]. right. right. reflexivity.
Defined.

(** C1 (amended).  When the focus tweet cannot be used,
    [fetchAndFormatTweetMemory] is fulfilled with [null] and
    [assembleTwitterInterface] is still fulfilled with a bundle: its image
    list is empty and its text is the fixed skeleton of the interface, with
    the history heading addressed to THE USER, an empty memory, no focus
    section and no image note. *)
Theorem unresolved_focus_skeleton W fuel recentMainTweetsContent tweetId log :
  focusUnresolved W tweetId →
  ∃ events,
    run (fetchAndFormatTweetMemory W fuel tweetId) log = (Fulfilled None, log ++ events)
    ∧ run (assembleTwitterInterface W fuel recentMainTweetsContent tweetId) log =
        (Fulfilled {| Bundle.textContent := skeletonText; Bundle.imageContents := [] |},
         log ++ events).
Proof.
  intros H. destruct (fetch_unresolved W fuel tweetId log H) as [events Hrun].
  exists events. split; [done|].
  unfold assembleTwitterInterface.
  erewrite run_bind_fulfilled by exact Hrun. reflexivity.
Qed.

Lemma unresolved_focus_skeleton_witness :
  ∃ events,
    run (fetchAndFormatTweetMemory Demo.world 5 "404") [] = (Fulfilled None, [] ++ events)
    ∧ run (assembleTwitterInterface Demo.world 5 "" "404") [] =
        (Fulfilled {| Bundle.textContent := skeletonText; Bundle.imageContents := [] |},
         [] ++ events).
Proof.
  apply (unresolved_focus_skeleton Demo.world 5 "" "404" []).
  vm_compute. exact I.
Defined.

(** C1 (as stated) fails: tweet 404 is not found, and the entry point
    returns a bundle whose text holds the interface heading and the history
    heading, not an empty result. *)
Lemma unresolved_focus_counterexample :
  getTweet Demo.world "404" = Resolve None
  ∧ (run (assembleTwitterInterface Demo.world 5 "" "404") []).1 =
      Fulfilled {| Bundle.textContent := skeletonText; Bundle.imageContents := [] |}
  ∧ ¬ (∀ b, (run (assembleTwitterInterface Demo.world 5 "" "404") []).1 = Fulfilled b →
            Bundle.textContent b = "").
Proof.
  split; [reflexivity|]. split; [reflexivity|].
  intros H. specialize (H _ eq_refl). discriminate H.
Qed.

(** ** Repeated calls *)

(** C8.  The bundle returned by [assembleTwitterInterface] for a focus
    identifier is a function of that identifier and of the answers of the
    collaborators alone: whatever has happened before the call, and in
    particular when the call is made a second time right after the first,
    the same text and the same images in the same order come back. *)
Theorem assemble_twice_same_bundle W fuel recent1 recent2 tweetId :
  (∀ log1 log2,
     (run (assembleTwitterInterface W fuel recent1 tweetId) log1).1 =
     (run (assembleTwitterInterface W fuel recent2 tweetId) log2).1)
  ∧ (∀ log,
       let first := run (assembleTwitterInterface W fuel recent1 tweetId) log in
       let second := run (assembleTwitterInterface W fuel recent2 tweetId) first.2 in
       second.1 = first.1
       ∧ first.2 = log ++ effects (assembleTwitterInterface W fuel recent1 tweetId)
       ∧ second.2 = first.2 ++ effects (assembleTwitterInterface W fuel recent1 tweetId)).
Proof.
  assert (Hsame : assembleTwitterInterface W fuel recent2 tweetId =
                  assembleTwitterInterface W fuel recent1 tweetId) by reflexivity.
  rewrite Hsame.
  pose proof (framed_assembleTwitterInterface W fuel recent1 tweetId) as Hf.
  split.
  - intros log1 log2. by rewrite (Hf log1), (Hf log2).
  - intros log. simpl. by rewrite !Hf.
Qed.

(** ** The memory formatter *)

Lemma formatMemory_single W n history :
  formatMemory W [n] history =
  ("Current Tweet Thread:" +:+ Js.nl +:+ Js.nl
     +:+ ("Parent Tweet:" +:+ Js.nl +:+ formatMessage W n +:+ Js.nl)
     +:+ "" +:+ "")
    +:+ Js.nl +:+ Js.nl
    +:+ (if decide (Js.join Js.nl (formatMessage W <$> history) = "")
         then "No previous conversation history."
         else "Past Conversation History:" +:+ Js.nl +:+ Js.nl
                +:+ Js.join Js.nl (formatMessage W <$> history)).
Proof. reflexivity. Qed.

Lemma removelast_snoc {A} (l : list A) x : removelast (l ++ [x]) = l.
Proof. rewrite removelast_app by done. simpl. apply app_nil_r. Qed.

(** With two elements or more the transcript has its parent section, its
    replies-above section when there is something between, and its focus
    section holding the last element. *)
Lemma formatMemory_sections W parent between focus history :
  formatMemory W (parent :: between ++ [focus]) history =
  ("Current Tweet Thread:" +:+ Js.nl +:+ Js.nl
     +:+ ("Parent Tweet:" +:+ Js.nl +:+ formatMessage W parent +:+ Js.nl)
     +:+ (if (0 <? length between)%nat
          then "Replies Above the Tweet You Are Replying To:" +:+ Js.nl
                 +:+ Js.join Js.nl (formatMessage W <$> between) +:+ Js.nl
          else "")
     +:+ ("The Tweet You Are Replying To:" +:+ Js.nl +:+ formatMessage W focus +:+ Js.nl))
    +:+ Js.nl +:+ Js.nl
    +:+ (if decide (Js.join Js.nl (formatMessage W <$> history) = "")
         then "No previous conversation history."
         else "Past Conversation History:" +:+ Js.nl +:+ Js.nl
                +:+ Js.join Js.nl (formatMessage W <$> history)).
Proof.
  unfold formatMemory. cbn [head tail].
  rewrite last_snoc, removelast_snoc. reflexivity.
Qed.

(** C2 (the code at the failing input).  Tweet 13 has neither parent nor
    quote: its thread is the focus node alone, and the transcript renders
    that node once, under the heading of the parent section; there is no
    focus section. *)
Theorem lone_focus_rendered_as_parent :
  run (getConversationThread Demo.world 0 "13") [] =
    (Fulfilled [nodeOf Demo.world true Demo.lena], [CallGetTweet "13"])
  ∧ formatMemory Demo.world [nodeOf Demo.world true Demo.lena] [] =
"Current Tweet Thread:

Parent Tweet:
[1970-01-01T00:00:00.000Z] lena: gm


No previous conversation history.".
Proof. split; reflexivity. Qed.


(** ** The image collector *)

Lemma foldl_append {A B} (f : B → list A) (l : list B) : ∀ acc,
  foldl (λ photos message, photos ++ f message) acc l = acc ++ (l ≫= f).
Proof.
  induction l as [|x l IH]; intros acc; simpl; [by rewrite app_nil_r|].
  by rewrite IH, <- app_assoc.
Qed.

Lemma messagePhotos_refs n :
  messagePhotos n = if Node.isFocusTweet n then [] else ownRefs n ++ quoteRefs n.
Proof. reflexivity. Qed.

Lemma bind_nonFocus thread :
  thread ≫= messagePhotos = nonFocus thread ≫= (λ n, ownRefs n ++ quoteRefs n).
Proof.
  induction thread as [|n thread IH]; [done|].
  rewrite bind_cons, IH, messagePhotos_refs. unfold nonFocus. cbn [List.filter].
  destruct (Node.isFocusTweet n); cbn [negb]; [done|]. by rewrite bind_cons.
Qed.

(** C4 (amended).  The collector goes through the non-focus nodes in thread
    order and lists, for each of them, its own images followed by the images
    of its quote context, each with its sender.  It skips nothing: every
    reference is kept, so that the length of the list is the number of
    references. *)
Theorem collector_lists_every_reference (thread : list Node.t) :
  allPhotos thread = nonFocus thread ≫= (λ n, ownRefs n ++ quoteRefs n)
  ∧ length (allPhotos thread) =
      sum_list ((λ n, length (ownRefs n) + length (quoteRefs n))%nat <$> nonFocus thread).
Proof.
  assert (H : allPhotos thread = nonFocus thread ≫= (λ n, ownRefs n ++ quoteRefs n)).
  { unfold allPhotos. rewrite foldl_append. apply bind_nonFocus. }
  split; [done|]. rewrite H. clear H.
  generalize (nonFocus thread). intros l.
  induction l as [|n l IH]; [done|].
  rewrite bind_cons, fmap_cons, !length_app, IH. simpl. lia.
Qed.

(** C4 (as stated) fails: on the thread of tweet 3 the collector lists the
    first image of alice again for bob and for the tweet bob quotes, and it
    lists the image of the tweet alice quotes before the own images of
    bob. *)
Lemma collector_counterexample :
  let thread := [nodeOf Demo.world false Demo.alice; nodeOf Demo.world false Demo.bob;
                 nodeOf Demo.world true Demo.carol] in
  allPhotos thread =
    [PhotoRef.mk "https://img/u1" "alice"; PhotoRef.mk "https://img/broken" "alice";
     PhotoRef.mk "https://img/u4" "erin";
     PhotoRef.mk "https://img/u1" "bob"; PhotoRef.mk "https://img/u2" "bob";
     PhotoRef.mk "https://img/broken" "bob";
     PhotoRef.mk "https://img/u3" "dave"; PhotoRef.mk "https://img/u1" "dave"]
  ∧ collector_as_specified thread =
    [PhotoRef.mk "https://img/u1" "alice"; PhotoRef.mk "https://img/broken" "alice";
     PhotoRef.mk "https://img/u2" "bob";
     PhotoRef.mk "https://img/u4" "erin"; PhotoRef.mk "https://img/u3" "dave"]
  ∧ ¬ NoDup (PhotoRef.photoUrl <$> allPhotos thread)
  ∧ allPhotos thread ≠ collector_as_specified thread.
Proof.
  simpl. split; [reflexivity|]. split; [reflexivity|]. split.
  - vm_compute. intros H. apply NoDup_cons in H as [Hin _].
    apply Hin. do 2 right. left.
  - vm_compute. discriminate.
Qed.

(** ** The image list of the bundle *)

Lemma run_await_call {A} e (r : Settled A) log :
  run (await_call e r) log =
  (match r with Resolve a => Fulfilled a | Reject error => Rejected error end, log ++ [e]).
Proof. reflexivity. Qed.

Lemma getImage_outcome W url log :
  (run (getImageAsBase64 W url) log).1 = Fulfilled (imageDataOf W url).
Proof.
  unfold getImageAsBase64, imageDataOf, try_catch. async_compute.
  destruct (axios_get W url); reflexivity.
Qed.

Lemma pushImages_outcome W items : ∀ imgs seen log,
  (run (pushImages W items (imgs, seen)) log).1 =
  Fulfilled (imgs ++ omap (encode W) (keptRefs W items seen),
             seen ∪ list_to_set (PhotoRef.photoUrl <$> keptRefs W items seen)).
Proof.
  induction items as [|item rest IH]; intros imgs seen log.
  - simpl. rewrite app_nil_r. do 2 f_equal. set_solver.
  - cbn [pushImages keptRefs fst snd].
    destruct (bool_decide (PhotoRef.photoUrl item ∈ seen)); [apply IH|].
    rewrite run_bind.
    pose proof (getImage_outcome W (PhotoRef.photoUrl item) log) as Himg.
    destruct (run (getImageAsBase64 W (PhotoRef.photoUrl item)) log) as [o log1].
    simpl in Himg. subst o. unfold fetchable, imageDataOf.
    destruct (axios_get W (PhotoRef.photoUrl item)) as [response|] eqn:Hget.
    + assert (Henc : encode W item =
                       Some (Image.mk (PhotoRef.sender item)
                               (Js.opt_or_else (Response.content_type response) "image/jpeg")
                               (Js.base64 (Response.data response)))).
      { unfold encode, imageDataOf. by rewrite Hget. }
      rewrite IH. cbn [omap list_omap]. rewrite Henc. simpl.
      rewrite <- app_assoc. do 2 f_equal. set_solver.
    + apply IH.
Qed.

Lemma keptRefs_urls W items : ∀ seen u,
  u ∈ (PhotoRef.photoUrl <$> keptRefs W items seen) ↔
  u ∈ (PhotoRef.photoUrl <$> items) ∧ (u ∉ seen) ∧ fetchable W u.
Proof.
  induction items as [|item rest IH]; intros seen u.
  - simpl. rewrite elem_of_nil. naive_solver.
  - cbn [keptRefs]. rewrite fmap_cons, elem_of_cons.
    case_bool_decide as Hseen.
    + rewrite IH. naive_solver.
    + destruct (fetchable W (PhotoRef.photoUrl item)) eqn:Hf.
      * apply Is_true_true in Hf.
        rewrite fmap_cons, elem_of_cons, IH, not_elem_of_union, not_elem_of_singleton.
        destruct (decide (u = PhotoRef.photoUrl item)) as [->|Hne]; naive_solver.
      * apply Is_true_false in Hf. rewrite IH. naive_solver.
Qed.

Lemma keptRefs_NoDup W items : ∀ seen,
  NoDup (PhotoRef.photoUrl <$> keptRefs W items seen).
Proof.
  induction items as [|item rest IH]; intros seen; [constructor|].
  cbn [keptRefs]. case_bool_decide; [apply IH|].
  destruct (fetchable W (PhotoRef.photoUrl item)); [|apply IH].
  rewrite fmap_cons. apply NoDup_cons. split; [|apply IH].
  rewrite keptRefs_urls. set_solver.
Qed.

Lemma keptRefs_first W items : ∀ seen k,
  k ∈ keptRefs W items seen →
  ∃ pre post, items = pre ++ k :: post
              ∧ PhotoRef.photoUrl k ∉ (PhotoRef.photoUrl <$> pre).
Proof.
  induction items as [|item rest IH]; intros seen k Hk; [by apply elem_of_nil in Hk|].
  cbn [keptRefs] in Hk.
  assert (Hlater : ∀ seen', k ∈ keptRefs W rest seen' →
                    PhotoRef.photoUrl k ≠ PhotoRef.photoUrl item →
                    ∃ pre post, item :: rest = pre ++ k :: post
                                ∧ PhotoRef.photoUrl k ∉ (PhotoRef.photoUrl <$> pre)).
  { intros seen' Hin Hne. destruct (IH seen' k Hin) as (pre & post & -> & Hpre).
    exists (item :: pre), post. split; [done|].
    rewrite fmap_cons. set_solver. }
  assert (Hurl : ∀ seen', k ∈ keptRefs W rest seen' →
                  (PhotoRef.photoUrl k ∉ seen') ∧ fetchable W (PhotoRef.photoUrl k)).
  { intros seen' Hin.
    assert (PhotoRef.photoUrl k ∈ (PhotoRef.photoUrl <$> keptRefs W rest seen')) as Hu
      by (by apply list_elem_of_fmap_2).
    apply keptRefs_urls in Hu. naive_solver. }
  case_bool_decide as Hseen.
  - apply (Hlater seen Hk). destruct (Hurl seen Hk) as [Hu _]. congruence.
  - destruct (fetchable W (PhotoRef.photoUrl item)) eqn:Hf.
    + apply elem_of_cons in Hk as [->|Hk].
      * exists [], rest. split; [done|]. simpl. apply not_elem_of_nil.
      * apply (Hlater _ Hk). destruct (Hurl _ Hk) as [Hu _]. set_solver.
    + apply (Hlater seen Hk). destruct (Hurl seen Hk) as [_ Hfk].
      intros Heq. rewrite Heq, Hf in Hfk. done.
Qed.

Lemma keptRefs_app W items1 items2 : ∀ seen,
  keptRefs W (items1 ++ items2) seen =
  keptRefs W items1 seen
    ++ keptRefs W items2 (seen ∪ list_to_set (PhotoRef.photoUrl <$> keptRefs W items1 seen)).
Proof.
  induction items1 as [|item rest IH]; intros seen.
  - simpl. f_equal. set_solver.
  - cbn [app keptRefs]. case_bool_decide; [apply IH|].
    destruct (fetchable W (PhotoRef.photoUrl item)); [|apply IH].
    rewrite IH. simpl. do 2 f_equal. apply (f_equal (keptRefs W items2)). set_solver.
Qed.

Lemma keptRefs_encoded W items : ∀ seen,
  Some <$> omap (encode W) (keptRefs W items seen) = encode W <$> keptRefs W items seen.
Proof.
  induction items as [|item rest IH]; intros seen; [done|].
  cbn [keptRefs]. case_bool_decide; [apply IH|].
  destruct (fetchable W (PhotoRef.photoUrl item)) eqn:Hf; [|apply IH].
  assert (∃ img, encode W item = Some img) as [img Himg].
  { unfold encode, imageDataOf. unfold fetchable in Hf.
    destruct (axios_get W (PhotoRef.photoUrl item)); [eauto|done]. }
  cbn [omap list_omap]. rewrite Himg, !fmap_cons, Himg, IH. done.
Qed.

Lemma pushImages_app W items1 items2 st log :
  run (pushImages W (items1 ++ items2) st) log =
  run (pushImages W items1 st ≫= pushImages W items2) log.
Proof.
  revert st log. induction items1 as [|item rest IH]; intros st log; [done|].
  rewrite run_bind. cbn [app pushImages].
  destruct (bool_decide (PhotoRef.photoUrl item ∈ st.2)).
  { by rewrite IH, run_bind. }
  rewrite !run_bind.
  destruct (run (getImageAsBase64 W (PhotoRef.photoUrl item)) log) as [[[d|]| |] log1];
    try done; by rewrite IH, run_bind.
Qed.

(** The references of a memory result in the order of the three loops. *)
Lemma collectImages_outcome W r log :
  let refs :=
    match Memory.focusTweet r with
    | Some f => focusPhotoRefs f ++ focusQuotePhotoRefs f
    | None => []
    end ++ Memory.photos r in
  ∃ seen,
    (run (collectImages W (Some r)) log).1 =
    Fulfilled (omap (encode W) (keptRefs W refs ∅), seen).
Proof.
  intros refs. eexists.
  assert (Hrun : run (collectImages W (Some r)) log = run (pushImages W refs ([], ∅)) log).
  { unfold collectImages, refs. destruct (Memory.focusTweet r) as [f|].
    - rewrite pushImages_app, !run_bind, pushImages_app, !run_bind. reflexivity.
    - reflexivity. }
  rewrite Hrun. apply (pushImages_outcome W refs [] ∅).
Qed.

Lemma fetch_memory W fuel tweetId t history thread log :
  getTweet W tweetId = Resolve (Some t) →
  Js.truthy (Tweet.username t) = true →
  Js.truthy (Tweet.text t) = true →
  getConversationWithUser W (default "" (Tweet.username t)) = Resolve history →
  outcome (getConversationThread W fuel tweetId) = Fulfilled thread →
  ∃ events,
    run (fetchAndFormatTweetMemory W fuel tweetId) log =
    (Fulfilled (Some {| Memory.memory := formatMemory W thread history;
                        Memory.username := default "" (Tweet.username t);
                        Memory.text := default "" (Tweet.text t);
                        Memory.photos := allPhotos thread;
                        Memory.focusTweet := focusOf W thread |}),
     log ++ events).
Proof.
  intros Hget Hu Ht Hhist Hthread. eexists.
  unfold fetchAndFormatTweetMemory. apply run_try_fulfilled.
  rewrite run_bind, run_getTweet, Hget. cbn [mbind option_bind].
  rewrite Hu, Ht. cbn [andb].
  rewrite run_bind, run_await_call, Hhist.
  rewrite run_bind, (framed_getConversationThread W fuel tweetId _), Hthread.
  rewrite run_ret, <- !app_assoc. reflexivity.
Qed.

(** C3 (amended).  When the focus tweet is usable and the thread is
    [thread], the image list of the bundle is the encoding, entry by entry,
    of a list [kept] of references taken from the thread in processing
    order (images of the focus tweet, images of its quote context, then the
    other nodes from the oldest on, own images before quote images): no
    locator is kept twice, a locator is kept exactly when it is referenced
    and its download succeeds, and the reference kept for a locator is the
    first one to it in processing order, so its sender is the one the entry
    is attributed to. *)
Theorem image_list_first_reference W fuel recent tweetId t history thread log :
  getTweet W tweetId = Resolve (Some t) →
  Js.truthy (Tweet.username t) = true →
  Js.truthy (Tweet.text t) = true →
  getConversationWithUser W (default "" (Tweet.username t)) = Resolve history →
  outcome (getConversationThread W fuel tweetId) = Fulfilled thread →
  ∃ b events kept,
    run (assembleTwitterInterface W fuel recent tweetId) log = (Fulfilled b, log ++ events)
    ∧ Some <$> Bundle.imageContents b = encode W <$> kept
    ∧ NoDup (PhotoRef.photoUrl <$> kept)
    ∧ (∀ url, url ∈ (PhotoRef.photoUrl <$> kept) ↔
              url ∈ (PhotoRef.photoUrl <$> processingOrder W thread) ∧ fetchable W url)
    ∧ (∀ k, k ∈ kept →
            ∃ pre post, processingOrder W thread = pre ++ k :: post
                        ∧ PhotoRef.photoUrl k ∉ (PhotoRef.photoUrl <$> pre)).
Proof.
  intros Hget Hu Ht Hhist Hthread.
  destruct (fetch_memory W fuel tweetId t history thread log Hget Hu Ht Hhist Hthread)
    as [events Hmem].
  set (r := {| Memory.memory := formatMemory W thread history;
               Memory.username := default "" (Tweet.username t);
               Memory.text := default "" (Tweet.text t);
               Memory.photos := allPhotos thread;
               Memory.focusTweet := focusOf W thread |}) in *.
  destruct (collectImages_outcome W r (log ++ events)) as [seen Himgs].
  change (match Memory.focusTweet r with
          | Some f => focusPhotoRefs f ++ focusQuotePhotoRefs f
          | None => []
          end ++ Memory.photos r) with (processingOrder W thread) in Himgs.
  pose proof (framed_collectImages W (Some r) (log ++ events)) as Hframed.
  rewrite Hframed in Himgs. cbn [fst] in Himgs.
  eexists _, _, (keptRefs W (processingOrder W thread) ∅). split.
  - unfold assembleTwitterInterface.
    erewrite run_bind_fulfilled by exact Hmem.
    rewrite run_bind, Hframed, Himgs, run_ret, <- app_assoc. reflexivity.
  - cbn [Bundle.imageContents fst]. split; [apply keptRefs_encoded|].
    split; [apply keptRefs_NoDup|]. split.
    + intros url. rewrite keptRefs_urls. set_solver.
    + apply keptRefs_first.
Qed.

Lemma image_list_first_reference_witness :
  let thread := [nodeOf Demo.world false Demo.alice; nodeOf Demo.world false Demo.bob;
                 nodeOf Demo.world true Demo.carol] in
  ∃ b events kept,
    run (assembleTwitterInterface Demo.world 2 "" "3") [] = (Fulfilled b, [] ++ events)
    ∧ Some <$> Bundle.imageContents b = encode Demo.world <$> kept
    ∧ NoDup (PhotoRef.photoUrl <$> kept)
    ∧ (∀ url, url ∈ (PhotoRef.photoUrl <$> kept) ↔
              url ∈ (PhotoRef.photoUrl <$> processingOrder Demo.world thread)
              ∧ fetchable Demo.world url)
    ∧ (∀ k, k ∈ kept →
            ∃ pre post, processingOrder Demo.world thread = pre ++ k :: post
                        ∧ PhotoRef.photoUrl k ∉ (PhotoRef.photoUrl <$> pre)).
Proof.
  apply (image_list_first_reference Demo.world 2 "" "3" Demo.carol [Demo.past]
           [nodeOf Demo.world false Demo.alice; nodeOf Demo.world false Demo.bob;
            nodeOf Demo.world true Demo.carol] []).
  - reflexivity.
  - reflexivity.
  - reflexivity.
  - reflexivity.
  - vm_compute. reflexivity.
Defined.

(** C3 (as stated) fails: in the thread of tweet 3 the first image of alice
    is also an image of bob and of carol, the focus tweet, and the one entry
    of the bundle for it is attributed to carol, the latest of the three;
    the second image of alice, also an image of bob, cannot be downloaded
    and has no entry at all. *)
Lemma image_attribution_counterexample :
  (run (getConversationThread Demo.world 2 "3") []).1 =
    Fulfilled [nodeOf Demo.world false Demo.alice; nodeOf Demo.world false Demo.bob;
               nodeOf Demo.world true Demo.carol]
  ∧ Node.photos (nodeOf Demo.world false Demo.alice) =
      ["https://img/u1"; "https://img/broken"]
  ∧ Node.photos (nodeOf Demo.world false Demo.bob) =
      ["https://img/u1"; "https://img/u2"; "https://img/broken"]
  ∧ Node.photos (nodeOf Demo.world true Demo.carol) = ["https://img/u1"]
  ∧ Bundle.imageContents <$>
      match (run (assembleTwitterInterface Demo.world 2 "" "3") []).1 with
      | Fulfilled b => Some b
      | _ => None
      end =
    Some [Image.mk "carol" "image/png" (Js.base64 (list_byte_of_string "https://img/u1"));
          Image.mk "erin" "image/png" (Js.base64 (list_byte_of_string "https://img/u4"));
          Image.mk "bob" "image/jpeg" (Js.base64 (list_byte_of_string "https://img/u2"));
          Image.mk "dave" "image/png" (Js.base64 (list_byte_of_string "https://img/u3"))]
  ∧ ¬ (∀ b, (run (assembleTwitterInterface Demo.world 2 "" "3") []).1 = Fulfilled b →
            length (List.filter
                      (λ i, String.eqb (Image.data i)
                              (Js.base64 (list_byte_of_string "https://img/u1"))
                            && String.eqb (Image.sender i) "alice")
                      (Bundle.imageContents b)) = 1%nat).
Proof.
  repeat split; try (vm_compute; reflexivity).
  intros H. specialize (H _ eq_refl). vm_compute in H. discriminate H.
Qed.

(** ** What a returned thread tells *)

Lemma walk_inv W fuel : ∀ t acc log ps log',
  run (walk W fuel t acc) log = (Fulfilled ps, log') →
  ∃ e above,
    Ancestry W e t above ∧ ps = rev above ++ acc
    ∧ (length (walkCalls e t above) ≤ fuel)%nat.
Proof.
  induction fuel as [|fuel IH]; intros t acc log ps log' Hrun; simpl in Hrun;
    destruct (Js.truthy (Tweet.inReplyToStatusId t)) eqn:Ht; try discriminate.
  - injection Hrun as <- _. exists NoParent, []. simpl. split; [done|]. split; [done|lia].
  - rewrite run_bind, run_getTweet in Hrun.
    destruct (getTweet W (default "" (Tweet.inReplyToStatusId t))) as [[p|]|] eqn:Hp;
      try discriminate.
    + destruct (IH _ _ _ _ _ Hrun) as (e & above & Hanc & -> & Hlen).
      exists e, (p :: above). simpl. split; [done|]. split; [|lia].
      by rewrite <- app_assoc.
    + injection Hrun as <- _. exists ParentNotFound, []. simpl.
      split; [done|]. split; [done|lia].
  - injection Hrun as <- _. exists NoParent, []. simpl. split; [done|]. split; [done|lia].
Qed.

Lemma nodeFor_fulfilled_inv W b t log n log' :
  run (resolveQuote W t ≫= threadNode b t) log = (Fulfilled n, log') →
  convertible W t.
Proof.
  unfold convertible, validDate, resolveQuote, threadNode, isoTimestamp.
  rewrite run_bind.
  destruct (Js.truthy (Tweet.quotedStatusId t));
    [rewrite run_bind, run_getTweet; destruct (getTweet W _) as [[q|]|]|]; simpl;
    repeat (match goal with
            | |- context [Js.toISOString ?d] => destruct (Js.toISOString d)
            end; simpl);
    try discriminate.
  all: intros _; rewrite ?bool_decide_eq_true_2 by eauto; done.
Qed.

Lemma promise_all_fulfilled_inv W ts : ∀ log ns log',
  run (promise_all_map (parentNode W) ts) log = (Fulfilled ns, log') →
  Forall (convertible W) ts.
Proof.
  induction ts as [|t ts IH]; intros log ns log' Hrun; [constructor|].
  unfold run in Hrun. simpl in Hrun.
  pose proof (nodeFor_fulfilled_inv W false t log) as Ht. unfold run in Ht.
  change (resolveQuote W t ≫= threadNode false t) with (parentNode W t) in Ht.
  destruct (parentNode W t log) as [ox log1].
  pose proof (IH log1) as Hts. unfold run in Hts.
  destruct (promise_all_map (parentNode W) ts log1) as [ors log2].
  destruct ox as [n| |], ors as [ns'| |]; try discriminate.
  constructor; [by eapply Ht|by eapply Hts].
Qed.

(** A thread that is returned with at least one node comes from a walk that
    ended, with fuel to spare for its requests, on tweets that are all
    convertible: the conditions of the statements on produced threads are
    the only way to a thread. *)
Lemma thread_nonempty_inv W fuel tweetId log nodes log' :
  run (getConversationThread W fuel tweetId) log = (Fulfilled nodes, log') →
  nodes ≠ [] →
  ∃ e focus above,
    getTweet W tweetId = Resolve (Some focus)
    ∧ Ancestry W e focus above
    ∧ Forall (convertible W) (focus :: above)
    ∧ (length (walkCalls e focus above) ≤ fuel)%nat.
Proof.
  unfold getConversationThread, try_catch, run. intros Hrun Hne.
  match type of Hrun with
  | context [match ?body log with _ => _ end] => destruct (body log) as [o log1] eqn:Hbody
  end.
  destruct o as [ns| |]; [|by injection Hrun as <- _|discriminate].
  injection Hrun as -> ->.
  change (?m log = ?r) with (run m log = r) in Hbody.
  rewrite run_bind, run_getTweet in Hbody.
  destruct (getTweet W tweetId) as [[focus|]|]; [| |discriminate].
  2: { by injection Hbody as <- _. }
  rewrite run_bind in Hbody.
  destruct (run (walk W fuel focus []) (log ++ [CallGetTweet tweetId]))
    as [[ps| |] log2] eqn:Hwalk; try discriminate.
  destruct (walk_inv W fuel _ _ _ _ _ Hwalk) as (e & above & Hanc & -> & Hlen).
  rewrite app_nil_r in Hbody. rewrite run_bind in Hbody.
  destruct (run (promise_all_map (parentNode W) (rev above)) log2)
    as [[conv| |] log3] eqn:Hall; try discriminate.
  apply promise_all_fulfilled_inv in Hall.
  rewrite (run_bind_assoc (resolveQuote W focus) (threadNode true focus)) in Hbody.
  rewrite run_bind in Hbody.
  destruct (run (resolveQuote W focus ≫= threadNode true focus) log3)
    as [[n| |] log4] eqn:Hfocus; try discriminate.
  apply nodeFor_fulfilled_inv in Hfocus.
  exists e, focus, above. split; [done|]. split; [done|]. split; [|done].
  constructor; [done|]. by apply Forall_rev in Hall; rewrite rev_involutive in Hall.
Qed.

(** * Further properties of the code *)

(** ** The Anthropic adapter *)

Lemma find_system_prefix (pre : list Anthropic.Message.t) sys post :
  Forall (λ m, Anthropic.Message.role m ≠ "system") pre →
  Anthropic.Message.role sys = "system" →
  List.find Anthropic.isSystem (pre ++ sys :: post) = Some sys.
Proof.
  intros Hpre Hsys. induction Hpre as [|m pre Hm _ IH]; simpl.
  - unfold Anthropic.isSystem. rewrite Hsys. reflexivity.
  - unfold Anthropic.isSystem at 1.
    destruct (String.eqb_spec (Anthropic.Message.role m) "system"); [done|apply IH].
Qed.

(** X1.  The system prompt of the parameters is the content of the first
    message of the history whose role is system, or the empty string when
    that message has no content; whatever follows that message, later
    system messages included, has no part in it. *)
Theorem buildParams_system pre sys post formattedTools toolChoice :
  Forall (λ m, Anthropic.Message.role m ≠ "system") pre →
  Anthropic.Message.role sys = "system" →
  Anthropic.Params.system
    (Anthropic.buildParams (pre ++ sys :: post) formattedTools toolChoice) =
  Js.opt_or_else (Anthropic.Message.content sys) "".
Proof.
  intros Hpre Hsys. unfold Anthropic.buildParams.
  rewrite (find_system_prefix pre sys post Hpre Hsys).
  by destruct (0 <? length formattedTools)%nat.
Qed.

Lemma buildParams_system_witness :
  Anthropic.Params.system
    (Anthropic.buildParams
       ([Anthropic.Message.mk "user" (Some "hi") None]
        ++ Anthropic.Message.mk "system" (Some "be brief") None
        :: [Anthropic.Message.mk "system" (Some "be long") None])
       [] None) =
  Js.opt_or_else (Some "be brief") "".
Proof.
  apply (buildParams_system [Anthropic.Message.mk "user" (Some "hi") None]
           (Anthropic.Message.mk "system" (Some "be brief") None)
           [Anthropic.Message.mk "system" (Some "be long") None] [] None).
  - repeat constructor. simpl. discriminate.
  - reflexivity.
Defined.

(** X2.  The messages of the parameters are the messages of the history
    that are not system messages, in the order of the history, each with
    its role, its name and its content as one text block; no message of the
    parameters has the system role.  The tools play no part in them. *)
Theorem buildParams_messages messageHistory formattedTools toolChoice :
  let messages :=
    Anthropic.Params.messages
      (Anthropic.buildParams messageHistory formattedTools toolChoice) in
  Forall2 (λ msg m,
             Anthropic.ApiMessage.role m = Anthropic.Message.role msg
             ∧ Anthropic.ApiMessage.name m = Anthropic.Message.name msg
             ∧ Anthropic.ApiMessage.content m =
                 [Anthropic.TextBlock.mk "text" (Anthropic.Message.content msg)])
    (List.filter (λ msg, negb (String.eqb (Anthropic.Message.role msg) "system"))
       messageHistory)
    messages
  ∧ Forall (λ m, Anthropic.ApiMessage.role m ≠ "system") messages
  ∧ (length messages + length (List.filter Anthropic.isSystem messageHistory)
     = length messageHistory)%nat.
Proof.
  assert (Hm : Anthropic.Params.messages
                 (Anthropic.buildParams messageHistory formattedTools toolChoice) =
               (λ msg, Anthropic.ApiMessage.mk (Anthropic.Message.role msg)
                         [Anthropic.TextBlock.mk "text" (Anthropic.Message.content msg)]
                         (Anthropic.Message.name msg))
                 <$> List.filter (λ msg, negb (Anthropic.isSystem msg)) messageHistory).
  { unfold Anthropic.buildParams. by destruct (0 <? length formattedTools)%nat. }
  simpl. rewrite Hm. clear Hm. unfold Anthropic.isSystem.
  induction messageHistory as [|msg h (IH1 & IH2 & IH3)]; simpl.
  - repeat split; constructor.
  - destruct (String.eqb_spec (Anthropic.Message.role msg) "system") as [Heq|Hne]; simpl.
    + repeat split; [done|done|]. rewrite Nat.add_succ_r. by f_equal.
    + repeat split; [by constructor|by constructor|]. simpl. by f_equal.
Qed.

(** X3.  Built from the same list of tools, the parameters carry the tools
    and a tool choice exactly when the list is not empty: the formatted
    tools are as many as the tools, with their names, descriptions and
    schemas in order, and the choice forces the tool that comes first.
    Without tools neither property is set. *)
Theorem buildParams_tools messageHistory tools :
  let params :=
    Anthropic.buildParams messageHistory (Anthropic.formatTools tools)
      (Anthropic.buildToolChoice tools) in
  match tools with
  | [] => Anthropic.Params.tools params = None ∧ Anthropic.Params.tool_choice params = None
  | first :: _ =>
      ∃ formatted,
        Anthropic.Params.tools params = Some formatted
        ∧ Forall2 (λ tool f,
                     Anthropic.FormattedTool.name f =
                       Anthropic.ToolFunction.name (Anthropic.Tool.function tool)
                     ∧ Anthropic.FormattedTool.description f =
                         Anthropic.ToolFunction.description (Anthropic.Tool.function tool)
                     ∧ Anthropic.FormattedTool.input_schema f =
                         Anthropic.ToolFunction.parameters (Anthropic.Tool.function tool))
            tools formatted
        ∧ Anthropic.Params.tool_choice params =
            Some (Anthropic.ToolChoice.mk "tool"
                    (Anthropic.ToolFunction.name (Anthropic.Tool.function first)))
        ∧ Anthropic.FormattedTool.name <$> head formatted =
            Anthropic.ToolChoice.name <$> Anthropic.Params.tool_choice params
  end.
Proof.
  destruct tools as [|first rest]; simpl; [done|].
  eexists. split; [reflexivity|]. split; [|done].
  constructor; [done|]. apply Forall2_fmap_r, Forall_Forall2_diag, Forall_true. done.
Qed.

(** X4.  Of a response only the first content item is looked at.  The
    message is always an assistant message whose content is the text of
    that item, the empty string if it has none; a function call is returned
    exactly when the type of that item is tool_use, with the name and the
    input of that item, and a tool call further down is not seen. *)
Theorem processResponse_first_item item rest :
  let r := Anthropic.processResponse (Anthropic.Response.mk (Some (item :: rest))) in
  r = Anthropic.processResponse (Anthropic.Response.mk (Some [item]))
  ∧ Anthropic.Processed.aiMessage r =
      Anthropic.AiMessage.mk "assistant"
        (Js.opt_or_else (Anthropic.ContentItem.text item) "")
  ∧ Anthropic.Processed.functionCall r =
      (if bool_decide (Anthropic.ContentItem.type item = Some "tool_use")
       then Some (Anthropic.FunctionCall.mk (Anthropic.ContentItem.name item)
                    (Anthropic.ContentItem.input item))
       else None)
  ∧ Anthropic.Processed.functionCall (Anthropic.processResponse (Anthropic.Response.mk None))
      = None
  ∧ Anthropic.Processed.functionCall
      (Anthropic.processResponse (Anthropic.Response.mk (Some []))) = None.
Proof.
  unfold Anthropic.processResponse. simpl.
  destruct (bool_decide (Anthropic.ContentItem.type item = Some "tool_use")); done.
Qed.

(** ** Every thread that is returned *)

Lemma find_focus_last (parents : list Node.t) focus :
  Forall (λ n, Node.isFocusTweet n = false) parents →
  Node.isFocusTweet focus = true →
  List.find Node.isFocusTweet (parents ++ [focus]) = Some focus
  ∧ allPhotos (parents ++ [focus]) = allPhotos parents.
Proof.
  intros Hparents Hfocus. split.
  - induction Hparents as [|n parents Hn _ IH]; simpl; [by rewrite Hfocus|by rewrite Hn].
  - unfold allPhotos. rewrite !foldl_append, bind_app.
    change ([focus] ≫= messagePhotos) with (messagePhotos focus ++ []).
    unfold messagePhotos at 2. rewrite Hfocus. by rewrite !app_nil_r.
Qed.

(** X5.  Whatever the platform answers, a thread that [getConversationThread]
    returns with at least one node ends with the node of the requested
    tweet: that node is flagged as the focus tweet and no node before it
    is.  So the focus tweet the memory result reports is that last node,
    and the images gathered from the thread are those of the nodes before
    it. *)
Theorem returned_thread_ends_with_focus W fuel tweetId log nodes log' :
  run (getConversationThread W fuel tweetId) log = (Fulfilled nodes, log') →
  nodes ≠ [] →
  ∃ parents focus t,
    nodes = parents ++ [focus]
    ∧ getTweet W tweetId = Resolve (Some t)
    ∧ Node.tweet_id focus = Tweet.id t
    ∧ Node.isFocusTweet focus = true
    ∧ Forall (λ n, Node.isFocusTweet n = false) parents
    ∧ List.find Node.isFocusTweet nodes = Some focus
    ∧ allPhotos nodes = allPhotos parents.
Proof.
  intros Hrun Hne.
  destruct (thread_nonempty_inv W fuel tweetId log nodes log' Hrun Hne)
    as (e & t & above & Hget & Hanc & Hconv & Hfuel).
  pose proof (thread_of_ancestry W e fuel tweetId t above log Hget Hanc Hconv Hfuel) as Hthread.
  rewrite Hrun in Hthread. injection Hthread as -> _.
  assert (Hflags : Forall (λ n, Node.isFocusTweet n = false) (nodeOf W false <$> rev above)).
  { apply Forall_fmap, Forall_true. done. }
  destruct (find_focus_last _ (nodeOf W true t) Hflags eq_refl) as (Hfind & Hphotos).
  exists (nodeOf W false <$> rev above), (nodeOf W true t), t.
  repeat split; done.
Qed.

Lemma returned_thread_ends_with_focus_witness :
  ∃ parents focus t,
    [nodeOf Demo.world false Demo.frank; nodeOf Demo.world true Demo.mallory]
      = parents ++ [focus]
    ∧ getTweet Demo.world "14" = Resolve (Some t)
    ∧ Node.tweet_id focus = Tweet.id t
    ∧ Node.isFocusTweet focus = true
    ∧ Forall (λ n, Node.isFocusTweet n = false) parents
    ∧ List.find Node.isFocusTweet
        [nodeOf Demo.world false Demo.frank; nodeOf Demo.world true Demo.mallory] = Some focus
    ∧ allPhotos [nodeOf Demo.world false Demo.frank; nodeOf Demo.world true Demo.mallory]
        = allPhotos parents.
Proof.
  apply (returned_thread_ends_with_focus Demo.world 3 "14" []
           [nodeOf Demo.world false Demo.frank; nodeOf Demo.world true Demo.mallory]
           [CallGetTweet "14"; CallGetTweet "5"; CallGetTweet "404"]).
  - vm_compute. reflexivity.
  - discriminate.
Defined.

(** ** Nothing is thrown to the caller *)

Lemma try_catch_not_rejected {A} (m : Async A) h log :
  (∀ caught l error, (run (h caught) l).1 ≠ Rejected error) →
  ∀ error, (run (try_catch m h) log).1 ≠ Rejected error.
Proof.
  intros Hh error. unfold run, try_catch.
  destruct (m log) as [[a|caught|] log1]; simpl; [done|apply Hh|done].
Qed.

Lemma collectImages_fulfilled W r log :
  ∃ st, (run (collectImages W r) log).1 = Fulfilled st.
Proof.
  destruct r as [r|]; [|by eexists].
  destruct (collectImages_outcome W r log) as [seen H]. eauto.
Qed.

(** X6.  None of the four asynchronous functions of the file rejects,
    whatever the collaborators do: [getImageAsBase64] is always fulfilled,
    with [null] exactly when the request fails, and the three others are
    fulfilled unless the walk over the parents is still running;
    [assembleTwitterInterface] and [fetchAndFormatTweetMemory] are
    fulfilled whenever [getConversationThread] is. *)
Theorem nothing_is_thrown W fuel recent tweetId url log :
  (run (getImageAsBase64 W url) log).1 = Fulfilled (imageDataOf W url)
  ∧ (imageDataOf W url = None ↔ ∃ error, axios_get W url = Reject error)
  ∧ (∀ error, (run (getConversationThread W fuel tweetId) log).1 ≠ Rejected error)
  ∧ (∀ error, (run (fetchAndFormatTweetMemory W fuel tweetId) log).1 ≠ Rejected error)
  ∧ (∀ error, (run (assembleTwitterInterface W fuel recent tweetId) log).1 ≠ Rejected error)
  ∧ (outcome (getConversationThread W fuel tweetId) ≠ Pending →
       (∃ r, (run (fetchAndFormatTweetMemory W fuel tweetId) log).1 = Fulfilled r)
       ∧ ∃ b, (run (assembleTwitterInterface W fuel recent tweetId) log).1 = Fulfilled b).
Proof.
  assert (Hfetch : ∀ error,
            (run (fetchAndFormatTweetMemory W fuel tweetId) log).1 ≠ Rejected error).
  { apply try_catch_not_rejected. intros [message|] l error; by async_compute. }
  assert (Hfetch' : outcome (getConversationThread W fuel tweetId) ≠ Pending →
                    ∃ r, (run (fetchAndFormatTweetMemory W fuel tweetId) log).1 = Fulfilled r).
  { intros Hnp. unfold fetchAndFormatTweetMemory, try_catch, run.
    change (?m log) with (run m log) at 1.
    rewrite run_bind, run_getTweet.
    destruct (getTweet W tweetId) as [tweet|[message|]]; [|by eexists..].
    cbv beta iota.
    destruct (Js.truthy (tweet ≫= Tweet.username) && Js.truthy (tweet ≫= Tweet.text));
      [|by eexists].
    cbv zeta. rewrite run_bind, run_await_call.
    destruct (getConversationWithUser W _) as [history|[message|]]; [|by eexists..].
    rewrite run_bind, (framed_getConversationThread W fuel tweetId _).
    destruct (outcome (getConversationThread W fuel tweetId)) as [thread|[message|]|] eqn:Hout;
      [by eexists..|done]. }
  assert (Hasm : ∀ r log1,
            run (fetchAndFormatTweetMemory W fuel tweetId) log = (Fulfilled r, log1) →
            ∃ b, (run (assembleTwitterInterface W fuel recent tweetId) log).1 = Fulfilled b).
  { intros r log1 Hr. unfold assembleTwitterInterface.
    erewrite run_bind_fulfilled by exact Hr. rewrite run_bind.
    destruct (collectImages_fulfilled W r log1) as [st Hst].
    destruct (run (collectImages W r) log1) as [o log2]. simpl in Hst. subst o.
    by eexists. }
  split; [apply getImage_outcome|]. split.
  { unfold imageDataOf. destruct (axios_get W url); split; try done; eauto.
    by intros [? ?]. }
  split; [apply try_catch_not_rejected; intros caught l error; by async_compute|].
  split; [done|]. split.
  - intros error.
    destruct (run (fetchAndFormatTweetMemory W fuel tweetId) log) as [[r|caught|] log1] eqn:Hr.
    + destruct (Hasm r log1 eq_refl) as [b Hb]. by rewrite Hb.
    + by specialize (Hfetch caught).
    + unfold assembleTwitterInterface. rewrite run_bind, Hr. done.
  - intros Hnp. destruct (Hfetch' Hnp) as [r Hr]. split; [eauto|].
    destruct (run (fetchAndFormatTweetMemory W fuel tweetId) log) as [o log1] eqn:Hrun.
    simpl in Hr. subst o. by apply (Hasm r log1).
Qed.

(** ** A chain of parents without end *)

(** X7.  When the parent references never run out (from the requested
    tweet on, every tweet reached names a parent that the platform
    returns), the walk does not stop by itself: for every amount of fuel it
    has made as many parent requests as it was given fuel for and is still
    running.  Nothing in the loop bounds the number of requests. *)
Theorem endless_chain_never_settles W (reached : Tweet.t → Prop) fuel tweetId focus log :
  (∀ t, reached t →
        Js.truthy (Tweet.inReplyToStatusId t) = true
        ∧ ∃ p, getTweet W (default "" (Tweet.inReplyToStatusId t)) = Resolve (Some p)
               ∧ reached p) →
  getTweet W tweetId = Resolve (Some focus) →
  reached focus →
  ∃ events,
    run (getConversationThread W fuel tweetId) log =
      (Pending, log ++ CallGetTweet tweetId :: events)
    ∧ length events = fuel
    ∧ Forall isFetch events.
Proof.
  intros Hclosed Hfocus Hreached.
  assert (Hwalk : ∀ fuel t acc log, reached t →
            ∃ events, run (walk W fuel t acc) log = (Pending, log ++ events)
                      ∧ length events = fuel ∧ Forall isFetch events).
  { clear fuel log Hfocus Hreached focus.
    induction fuel as [|fuel IH]; intros t acc log Ht;
      destruct (Hclosed t Ht) as (Htruthy & p & Hp & Hrp); simpl; rewrite Htruthy.
    - exists []. rewrite app_nil_r. by repeat split.
    - rewrite run_bind, run_getTweet, Hp.
      destruct (IH p (p :: acc) (log ++ [CallGetTweet (default "" (Tweet.inReplyToStatusId t))])
                  Hrp) as (events & Hrun & Hlen & Hfetch).
      exists (CallGetTweet (default "" (Tweet.inReplyToStatusId t)) :: events).
      rewrite Hrun, <- app_assoc. repeat split; [simpl; lia|].
      constructor; [by eexists|done]. }
  destruct (Hwalk fuel focus [] (log ++ [CallGetTweet tweetId]) Hreached)
    as (events & Hrun & Hlen & Hfetch).
  exists events. split; [|done].
  unfold getConversationThread, try_catch, run.
  change (?m log) with (run m log) at 1.
  rewrite run_bind, run_getTweet, Hfocus, run_bind, Hrun, <- app_assoc. reflexivity.
Qed.

Lemma endless_chain_never_settles_witness :
  ∃ events,
    run (getConversationThread Loop.world 7 "a") [] =
      (Pending, [] ++ CallGetTweet "a" :: events)
    ∧ length events = 7%nat
    ∧ Forall isFetch events.
Proof.
  apply (endless_chain_never_settles Loop.world (λ t, t = Loop.ping ∨ t = Loop.pong)
           7 "a" Loop.ping []).
  - intros t [->| ->]; (split; [reflexivity|]).
    + exists Loop.pong. split; [reflexivity|by right].
    + exists Loop.ping. split; [reflexivity|by left].
  - reflexivity.
  - by left.
Defined.

(** ** A focus tweet without a thread, and a history that cannot be read *)

Lemma run_fetch_usable W fuel tweetId t log :
  getTweet W tweetId = Resolve (Some t) →
  Js.truthy (Tweet.username t) = true →
  Js.truthy (Tweet.text t) = true →
  run (fetchAndFormatTweetMemory W fuel tweetId) log =
  run (try_catch
         (conversationWithUser ←
            await_call (CallGetConversationWithUser (default "" (Tweet.username t)))
              (getConversationWithUser W (default "" (Tweet.username t)));
          conversationThread ← getConversationThread W fuel tweetId;
          mret (Some {| Memory.memory := formatMemory W conversationThread conversationWithUser;
                        Memory.username := default "" (Tweet.username t);
                        Memory.text := default "" (Tweet.text t);
                        Memory.photos := allPhotos conversationThread;
                        Memory.focusTweet := focusOf W conversationThread |}))
         (λ error,
            match error with
            | ErrorObject message =>
                console_log ("❌ Error fetching memory context: " +:+ message);;
                console_error ""
            | OtherValue =>
                console_log "❌ An unknown error occurred";;
                console_error ""
            end;;
            mret None))
      (log ++ [CallGetTweet tweetId]).
Proof.
  intros Hget Hu Ht. unfold fetchAndFormatTweetMemory, try_catch, run.
  change (?m log) with (run m log) at 1.
  rewrite run_bind, run_getTweet, Hget. cbn [mbind option_bind].
  rewrite Hu, Ht. reflexivity.
Qed.

(** X8.  When the focus tweet is usable but [getConversationThread] comes
    back empty (a conversion threw, see C9), the entry point still returns
    a bundle: the memory is the transcript of an empty thread followed by
    the history, the focus section is missing, the heading is addressed to
    THE USER, and the image list is empty.  After the calls of the thread
    function nothing is requested, so the images of the focus tweet itself
    are not downloaded either. *)
Theorem empty_thread_leaves_no_images W fuel recent tweetId t history log :
  getTweet W tweetId = Resolve (Some t) →
  Js.truthy (Tweet.username t) = true →
  Js.truthy (Tweet.text t) = true →
  getConversationWithUser W (default "" (Tweet.username t)) = Resolve history →
  outcome (getConversationThread W fuel tweetId) = Fulfilled [] →
  let memory :=
    {| Memory.memory := formatMemory W [] history;
       Memory.username := default "" (Tweet.username t);
       Memory.text := default "" (Tweet.text t);
       Memory.photos := [];
       Memory.focusTweet := None |} in
  run (assembleTwitterInterface W fuel recent tweetId) log =
    (Fulfilled {| Bundle.textContent := textContentOf (Some memory) [];
                  Bundle.imageContents := [] |},
     log ++ CallGetTweet tweetId
         :: CallGetConversationWithUser (default "" (Tweet.username t))
         :: effects (getConversationThread W fuel tweetId))
  ∧ focusTweetSection (Some memory) = ""
  ∧ imagesNote [] = "".
Proof.
  intros Hget Hu Ht Hhist Hthread memory. split; [|done].
  unfold assembleTwitterInterface.
  erewrite run_bind_fulfilled.
  2: { rewrite (run_fetch_usable W fuel tweetId t log Hget Hu Ht).
       apply run_try_fulfilled.
       rewrite run_bind, run_await_call, Hhist.
       rewrite run_bind, (framed_getConversationThread W fuel tweetId _), Hthread.
       rewrite run_ret. reflexivity. }
  rewrite <- !app_assoc. reflexivity.
Qed.

Lemma empty_thread_leaves_no_images_witness :
  let memory :=
    {| Memory.memory := formatMemory Demo.world [] [];
       Memory.username := "grace"; Memory.text := "Yes";
       Memory.photos := []; Memory.focusTweet := None |} in
  run (assembleTwitterInterface Demo.world 2 "" "6") [] =
    (Fulfilled {| Bundle.textContent := textContentOf (Some memory) [];
                  Bundle.imageContents := [] |},
     [] ++ CallGetTweet "6" :: CallGetConversationWithUser "grace"
        :: effects (getConversationThread Demo.world 2 "6"))
  ∧ focusTweetSection (Some memory) = ""
  ∧ imagesNote [] = "".
Proof.
  apply (empty_thread_leaves_no_images Demo.world 2 "" "6" Demo.grace [] []).
  - reflexivity.
  - reflexivity.
  - reflexivity.
  - reflexivity.
  - vm_compute. reflexivity.
Defined.

(** X9.  When the focus tweet is usable but the read of the history is
    rejected, [fetchAndFormatTweetMemory] prints one line and the error,
    and returns [null] without asking for the thread: the reply chain is
    never walked.  The line is the fixed prefix followed by the message
    when the history store rejected with an [Error], and the unknown-error
    line when it rejected with any other value.  The entry point then
    returns the skeleton of the interface with no image. *)
Theorem failed_history_skips_thread W fuel recent tweetId t error log :
  getTweet W tweetId = Resolve (Some t) →
  Js.truthy (Tweet.username t) = true →
  Js.truthy (Tweet.text t) = true →
  getConversationWithUser W (default "" (Tweet.username t)) = Reject error →
  let events :=
    [CallGetTweet tweetId;
     CallGetConversationWithUser (default "" (Tweet.username t));
     ConsoleLog match error with
                | ErrorObject message => "❌ Error fetching memory context: " +:+ message
                | OtherValue => "❌ An unknown error occurred"
                end;
     ConsoleError ""] in
  run (fetchAndFormatTweetMemory W fuel tweetId) log = (Fulfilled None, log ++ events)
  ∧ run (assembleTwitterInterface W fuel recent tweetId) log =
      (Fulfilled {| Bundle.textContent := skeletonText; Bundle.imageContents := [] |},
       log ++ events).
Proof.
  intros Hget Hu Ht Hhist events.
  assert (Hfetch : run (fetchAndFormatTweetMemory W fuel tweetId) log =
                   (Fulfilled None, log ++ events)).
  { rewrite (run_fetch_usable W fuel tweetId t log Hget Hu Ht).
    erewrite run_try_rejected; [|by rewrite run_bind, run_await_call, Hhist].
    unfold events. destruct error; async_compute; by rewrite <- !app_assoc. }
  split; [done|].
  unfold assembleTwitterInterface.
  erewrite run_bind_fulfilled by exact Hfetch. reflexivity.
Qed.

Lemma failed_history_skips_thread_witness :
  let events :=
    [CallGetTweet "2"; CallGetConversationWithUser "bob";
     ConsoleLog "❌ Error fetching memory context: connection refused"; ConsoleError ""] in
  run (fetchAndFormatTweetMemory Loop.world 2 "2") [] = (Fulfilled None, [] ++ events)
  ∧ run (assembleTwitterInterface Loop.world 2 "" "2") [] =
      (Fulfilled {| Bundle.textContent := skeletonText; Bundle.imageContents := [] |},
       [] ++ events).
Proof.
  apply (failed_history_skips_thread Loop.world 2 "" "2" Demo.bob
           (ErrorObject "connection refused") []); reflexivity.
Defined.

(** The other branch of the handler: for ping the history store rejects
    with a value that is not an [Error]. *)
Example failed_history_unknown_error :
  run (fetchAndFormatTweetMemory Loop.world 2 "a") [] =
    (Fulfilled None,
     [CallGetTweet "a"; CallGetConversationWithUser "ping";
      ConsoleLog "❌ An unknown error occurred"; ConsoleError ""]).
Proof. reflexivity. Qed.

(** ** The history section of the memory *)

Lemma formatMessage_bracket W msg : ∃ rest, formatMessage W msg = String "[" rest.
Proof.
  unfold formatMessage.
  destruct (Node.quoteContext msg) as [qc|]; [|by eexists].
  destruct (0 <? length (Quote.photos qc))%nat; by eexists.
Qed.

Lemma join_formatted_empty W (history : list Node.t) :
  Js.join Js.nl (formatMessage W <$> history) = "" → history = [].
Proof.
  destruct history as [|msg rest]; [done|].
  rewrite fmap_cons. destruct (formatMessage_bracket W msg) as [r ->].
  destruct (formatMessage W <$> rest); simpl; discriminate.
Qed.

(** X10.  The transcript of the thread does not depend on the history, and
    the history section after it is the literal placeholder exactly when
    there is no history message; otherwise it is the heading followed by
    the messages, one rendering per message, joined by line breaks. *)
Theorem history_section W threadMessages :
  ∃ threadMemory,
    ∀ historyMessages,
      formatMemory W threadMessages historyMessages =
      threadMemory +:+ Js.nl +:+ Js.nl
        +:+ match historyMessages with
            | [] => "No previous conversation history."
            | _ :: _ =>
                "Past Conversation History:" +:+ Js.nl +:+ Js.nl
                  +:+ Js.join Js.nl (formatMessage W <$> historyMessages)
            end.
Proof.
  eexists. intros historyMessages. unfold formatMemory.
  destruct (decide (Js.join Js.nl (formatMessage W <$> historyMessages) = "")) as [He|Hne].
  - apply join_formatted_empty in He. subst. reflexivity.
  - destruct historyMessages; [done|reflexivity].
Qed.

(** ** The requests for the images *)

Lemma effects_bind {A B} (m : Async A) (f : A → Async B) a :
  Framed m → Framed (f a) → outcome m = Fulfilled a →
  effects (m ≫= f) = effects m ++ effects (f a).
Proof.
  intros Hm Hf Hout. unfold effects at 1.
  change ((m ≫= f) []) with (run (m ≫= f) []).
  rewrite run_bind, (Hm []), Hout. simpl. by rewrite (Hf (effects m)).
Qed.

Lemma getImage_effects W url :
  outcome (getImageAsBase64 W url) = Fulfilled (imageDataOf W url)
  ∧ axiosRequests url (effects (getImageAsBase64 W url)) = 1%nat
  ∧ ∀ other, other ≠ url → axiosRequests other (effects (getImageAsBase64 W url)) = 0%nat.
Proof.
  unfold outcome, effects, getImageAsBase64, imageDataOf, try_catch, axiosRequests.
  async_compute.
  destruct (axios_get W url); simpl; rewrite String.eqb_refl; (split; [done|]);
    (split; [done|]); intros other Hne;
    by destruct (String.eqb_spec url other) as [->|].
Qed.

Lemma axiosRequests_app url l1 l2 :
  axiosRequests url (l1 ++ l2) = (axiosRequests url l1 + axiosRequests url l2)%nat.
Proof. unfold axiosRequests. by rewrite List.filter_app, length_app. Qed.

Lemma pushImages_requests W url items : ∀ imgs seen,
  axiosRequests url (effects (pushImages W items (imgs, seen))) =
  if bool_decide (url ∈ seen) then 0%nat
  else if fetchable W url then (if (0 <? occurrences url items)%nat then 1%nat else 0%nat)
       else occurrences url items.
Proof.
  induction items as [|item rest IH]; intros imgs seen.
  - simpl. by destruct (bool_decide (url ∈ seen)), (fetchable W url).
  - cbn [pushImages fst snd]. unfold occurrences. cbn [List.filter].
    fold (occurrences url rest).
    case_bool_decide as Hitem.
    { rewrite IH. case_bool_decide as Hurl; [done|].
      destruct (String.eqb_spec (PhotoRef.photoUrl item) url) as [Heq|Hne];
        [by rewrite Heq in Hitem|done]. }
    destruct (getImage_effects W (PhotoRef.photoUrl item)) as (Hout & Hone & Hother).
    erewrite effects_bind;
      [|apply framed_getImageAsBase64| |exact Hout].
    2: { destruct (imageDataOf W (PhotoRef.photoUrl item)); apply framed_pushImages. }
    rewrite axiosRequests_app.
    assert (Hfi : imageDataOf W (PhotoRef.photoUrl item) = None
                  ↔ fetchable W (PhotoRef.photoUrl item) = false).
    { unfold imageDataOf, fetchable. by destruct (axios_get W _). }
    destruct (String.eqb_spec (PhotoRef.photoUrl item) url) as [Heq|Hne].
    + rewrite Heq in *. rewrite Hone. rewrite (bool_decide_eq_false_2 _ Hitem).
      destruct (imageDataOf W url) as [d|] eqn:Hd.
      * rewrite IH. rewrite bool_decide_eq_true_2 by set_solver.
        destruct (fetchable W url) eqn:Hf; [done|].
        by destruct Hfi as [_ Hfi]; specialize (Hfi eq_refl).
      * rewrite IH, (bool_decide_eq_false_2 _ Hitem).
        destruct Hfi as [Hfi _]. by rewrite (Hfi eq_refl).
    + rewrite (Hother url) by congruence.
      destruct (imageDataOf W (PhotoRef.photoUrl item)); rewrite IH; [|done].
      case_bool_decide as H1; case_bool_decide as H2; try done; set_solver.
Qed.

Lemma collectImages_run W r log :
  run (collectImages W (Some r)) log =
  run (pushImages W (match Memory.focusTweet r with
                     | Some f => focusPhotoRefs f ++ focusQuotePhotoRefs f
                     | None => []
                     end ++ Memory.photos r) ([], ∅)) log.
Proof.
  unfold collectImages. destruct (Memory.focusTweet r) as [f|]; [|reflexivity].
  rewrite pushImages_app, !run_bind, pushImages_app, !run_bind. reflexivity.
Qed.

(** X11.  Over the three image loops of the assembler an image that can be
    downloaded is requested once, however many nodes of the thread refer to
    it, and an image that is not referred to is not requested.  An image
    whose download fails is not remembered as processed: it is requested
    again at every reference to it. *)
Theorem image_requests W r url :
  let refs :=
    match Memory.focusTweet r with
    | Some f => focusPhotoRefs f ++ focusQuotePhotoRefs f
    | None => []
    end ++ Memory.photos r in
  axiosRequests url (effects (collectImages W (Some r))) =
  if fetchable W url then (if (0 <? occurrences url refs)%nat then 1%nat else 0%nat)
  else occurrences url refs.
Proof.
  intros refs.
  assert (effects (collectImages W (Some r)) = effects (pushImages W refs ([], ∅))) as ->.
  { unfold effects. apply (f_equal snd (collectImages_run W r [])). }
  rewrite pushImages_requests. by rewrite bool_decide_eq_false_2 by set_solver.
Qed.

Example image_requests_demo :
  let r := {| Memory.memory := ""; Memory.username := "carol"; Memory.text := "Hey";
              Memory.photos :=
                allPhotos [nodeOf Demo.world false Demo.alice;
                           nodeOf Demo.world false Demo.bob;
                           nodeOf Demo.world true Demo.carol];
              Memory.focusTweet :=
                focusOf Demo.world [nodeOf Demo.world false Demo.alice;
                                    nodeOf Demo.world false Demo.bob;
                                    nodeOf Demo.world true Demo.carol] |} in
  axiosRequests "https://img/u1" (effects (collectImages Demo.world (Some r))) = 1%nat
  ∧ axiosRequests "https://img/broken" (effects (collectImages Demo.world (Some r))) = 2%nat.
Proof. vm_compute. done. Qed.


(** ** replyToTweet *)

Ltac reply_unfold :=
  unfold Reply.replyToTweet, Reply.try_catch, Reply.call, Reply.logger, Reply.nowISO,
    Reply.userTweetTimestamp, Reply.throw, Reply.run,
    mbind, Reply.Task_bind, mret, Reply.Task_ret.

Ltac reply_cases :=
  repeat (simpl;
          match goal with
          | |- context [match ?x with _ => _ end] =>
              lazymatch x with
              | context [match _ with _ => _ end] => fail
              | _ => destruct x eqn:?
              end
          | |- context [if ?x then _ else _] =>
              lazymatch x with
              | context [if _ then _ else _] => fail
              | _ => destruct x eqn:?
              end
          end).

(** X12.  [replyToTweet] never rejects: on every answer of its
    collaborators it is fulfilled, with the identifier of the reply or with
    [null], and the fetch of the target tweet is the first thing it does. *)
Theorem reply_never_rejects W replyToTweetId text mediaUrls log :
  ∃ result events,
    Reply.run (Reply.replyToTweet W replyToTweetId text mediaUrls) log =
      (Fulfilled result, log ++ Reply.GetTweet replyToTweetId :: events).
Proof.
  reply_unfold. reply_cases; rewrite <- ?app_assoc; eexists _, _; reflexivity.
Qed.

(** X13.  When the target tweet cannot be used (the fetch is rejected or
    answers not-found, or the tweet has no username), [replyToTweet]
    returns [null] after that one fetch and one log line: the tweet is not
    liked and nothing is sent. *)
Theorem reply_unusable_target W replyToTweetId text mediaUrls log :
  ((∃ error, Reply.getTweet W replyToTweetId = Reject error)
   ∨ Reply.getTweet W replyToTweetId = Resolve None
   ∨ ∃ t, Reply.getTweet W replyToTweetId = Resolve (Some t)
          ∧ Js.truthy (Tweet.username t) = false) →
  ∃ line,
    Reply.run (Reply.replyToTweet W replyToTweetId text mediaUrls) log =
      (Fulfilled None, log ++ [Reply.GetTweet replyToTweetId; Reply.Logged line]).
Proof.
  intros [[error H]|[H|(t & H & Hu)]]; reply_unfold; rewrite H; simpl; rewrite ?Hu;
    rewrite <- ?app_assoc; eexists; reflexivity.
Qed.

Lemma reply_unusable_target_witness :
  ∃ line,
    Reply.run (Reply.replyToTweet ReplyDemo.world "404" "hello" None) [] =
      (Fulfilled None, [] ++ [Reply.GetTweet "404"; Reply.Logged line]).
Proof.
  apply (reply_unusable_target ReplyDemo.world "404" "hello" None []).
  right. left. reflexivity.
Defined.

(** X14.  Whatever the collaborators answer, one call of [replyToTweet]
    sends at most one tweet, it is the reply with the given text to the
    given tweet, and the like of that tweet is the call issued just before
    the send.  Without media locators the reply is sent without media. *)
Theorem reply_likes_then_sends_once W replyToTweetId text mediaUrls log :
  ∃ events,
    (Reply.run (Reply.replyToTweet W replyToTweetId text mediaUrls) log).2 = log ++ events
    ∧ (sends events = []
       ∨ ∃ pre mediaData post,
           events = pre ++ [Reply.Like replyToTweetId;
                            Reply.Send text replyToTweetId mediaData] ++ post
           ∧ sends events = [Reply.Send text replyToTweetId mediaData]
           ∧ (mediaUrls = None → mediaData = None)).
Proof.
  reply_unfold. reply_cases; rewrite <- ?app_assoc; eexists; (split; [reflexivity|]);
    first [ left; reflexivity
          | right; eexists [_], _, _; repeat split; try reflexivity; done
          | right; eexists [_; _], _, _; repeat split; try reflexivity; done ].
Qed.

Ltac reply_facts :=
  repeat split;
  first [ reflexivity | assumption | (left; reflexivity) | (right; reflexivity)
        | (eexists; split; eassumption) ].

(** X15.  When [replyToTweet] returns an identifier, everything has been
    done, in this order: the target tweet fetched, the media prepared if
    locators were given, the tweet liked, the reply sent, the body of the
    response read, the reply logged under the returned identifier (a log
    that answers nothing only adds a warning line), the user found, the
    context analysed, the interaction logged for the target tweet, and the
    success line written.  The identifier is the [rest_id] found in the
    body of the response to the send, and it is truthy; the media sent are
    what the preparation of the locators answered, and none without
    locators. *)
Theorem reply_success_is_complete W replyToTweetId text mediaUrls log rid log' :
  Reply.run (Reply.replyToTweet W replyToTweetId text mediaUrls) log
    = (Fulfilled (Some rid), log') →
  ∃ t prep mediaData entry warn interaction,
    Reply.getTweet W replyToTweetId = Resolve (Some t)
    ∧ (∃ responseData,
         Reply.sendTweet W text replyToTweetId mediaData = Resolve (Resolve responseData)
         ∧ Reply.restId responseData = Some rid)
    ∧ match mediaUrls with
      | Some urls => Reply.prepareMediaData W urls = Resolve mediaData
      | None => mediaData = None
      end
    ∧ Json.truthy (Some rid) = true
    ∧ log' = log ++ [Reply.GetTweet replyToTweetId] ++ prep
                 ++ [Reply.Like replyToTweetId;
                     Reply.Send text replyToTweetId mediaData;
                     Reply.ReadJson;
                     Reply.LogTweet entry mediaData] ++ warn
                 ++ [Reply.FindUser t; Reply.Analyze t;
                     Reply.LogInteraction interaction;
                     Reply.Logged (Reply.ReplySent (Some rid))]
    ∧ prep = match mediaUrls with Some urls => [Reply.PrepareMedia urls] | None => [] end
    ∧ (warn = [] ∨ warn = [Reply.Logged Reply.FailedToLogReply])
    ∧ Reply.TweetLog.tweet_id entry = Some rid
    ∧ Reply.TweetLog.text entry = text
    ∧ Reply.TweetLog.tweet_type entry = "reply"
    ∧ Reply.TweetLog.in_reply_to_tweet_id entry = replyToTweetId
    ∧ Reply.TweetLog.has_media entry = Json.truthy mediaData
    ∧ Reply.Interaction.tweetId interaction = replyToTweetId
    ∧ Reply.Interaction.userTweetText interaction = Js.opt_or_else (Tweet.text t) "".
Proof.
  revert rid log'. reply_unfold. reply_cases; intros rid log' Hrun;
    try discriminate; injection Hrun as Hrid <-; rewrite <- ?app_assoc;
    rewrite Hrid in *;
    first [ eexists _, [], _, _, [], _; solve [reply_facts]
          | eexists _, [], _, _, [_], _; solve [reply_facts]
          | eexists _, [_], _, _, [], _; solve [reply_facts]
          | eexists _, [_], _, _, [_], _; solve [reply_facts] ].
Qed.

Lemma reply_success_is_complete_witness :
  ∃ t prep mediaData entry warn interaction,
    Reply.getTweet ReplyDemo.world "1" = Resolve (Some t)
    ∧ (∃ responseData,
         Reply.sendTweet ReplyDemo.world "hello" "1" mediaData = Resolve (Resolve responseData)
         ∧ Reply.restId responseData = Some (Json.Str "999"))
    ∧ Reply.prepareMediaData ReplyDemo.world ["https://img/u1"] = Resolve mediaData
    ∧ Json.truthy (Some (Json.Str "999")) = true
    ∧ (Reply.run (Reply.replyToTweet ReplyDemo.world "1" "hello" (Some ["https://img/u1"]))
         []).2
      = [] ++ [Reply.GetTweet "1"] ++ prep
           ++ [Reply.Like "1"; Reply.Send "hello" "1" mediaData; Reply.ReadJson;
               Reply.LogTweet entry mediaData] ++ warn
           ++ [Reply.FindUser t; Reply.Analyze t; Reply.LogInteraction interaction;
               Reply.Logged (Reply.ReplySent (Some (Json.Str "999")))]
    ∧ prep = [Reply.PrepareMedia ["https://img/u1"]]
    ∧ (warn = [] ∨ warn = [Reply.Logged Reply.FailedToLogReply])
    ∧ Reply.TweetLog.tweet_id entry = Some (Json.Str "999")
    ∧ Reply.TweetLog.text entry = "hello"
    ∧ Reply.TweetLog.tweet_type entry = "reply"
    ∧ Reply.TweetLog.in_reply_to_tweet_id entry = "1"
    ∧ Reply.TweetLog.has_media entry = Json.truthy mediaData
    ∧ Reply.Interaction.tweetId interaction = "1"
    ∧ Reply.Interaction.userTweetText interaction = Js.opt_or_else (Tweet.text t) "".
Proof.
  apply (reply_success_is_complete ReplyDemo.world "1" "hello" (Some ["https://img/u1"]) []
           (Json.Str "999")
           (Reply.run (Reply.replyToTweet ReplyDemo.world "1" "hello"
                         (Some ["https://img/u1"])) []).2).
  vm_compute. reflexivity.
Defined.

(** X16.  A [null] result does not mean that nothing was sent.  Once the
    reply is out, a user that cannot be found, a user lookup that fails or
    an invalid date on the target tweet still makes [replyToTweet] return
    [null]: the reply has been sent, exactly once, and the interaction is
    not logged. *)
Theorem reply_sent_but_null W replyToTweetId text mediaUrls t mediaData rid log :
  replySent W replyToTweetId text mediaUrls t mediaData rid →
  lateFailure W t →
  ∃ events,
    Reply.run (Reply.replyToTweet W replyToTweetId text mediaUrls) log =
      (Fulfilled None, log ++ events)
    ∧ sends events = [Reply.Send text replyToTweetId mediaData]
    ∧ List.filter isLogInteraction events = [].
Proof.
  intros (Hget & Hu & Hmedia & Hlike & (responseData & Hsend & Hrid) & Htruthy) Hlate.
  reply_unfold. rewrite Hget. cbv beta iota. rewrite Hu.
  destruct mediaUrls as [urls|]; [|subst mediaData];
    rewrite ?Hmedia; cbv beta iota; rewrite Hlike; cbv beta iota;
    rewrite Hsend; cbv beta iota; rewrite Hrid, Htruthy.
  all: destruct Hlate as [Hfind|[[error Hfind]|(d & Hd & Hiso)]].
  all: reply_cases; try congruence; rewrite <- ?app_assoc;
    eexists; (split; [reflexivity|]); split; reflexivity.
Qed.

Lemma reply_sent_but_null_witness :
  ∃ events,
    Reply.run (Reply.replyToTweet ReplyDemo.world "7" "hello" None) [] =
      (Fulfilled None, [] ++ events)
    ∧ sends events = [Reply.Send "hello" "7" None]
    ∧ List.filter isLogInteraction events = [].
Proof.
  apply (reply_sent_but_null ReplyDemo.world "7" "hello" None Demo.heidi None
           (Some (Json.Str "999")) []).
  - repeat split; try reflexivity. exists ReplyDemo.sent. split; reflexivity.
  - left. reflexivity.
Defined.

Example reply_invalid_date :
  Reply.run (Reply.replyToTweet ReplyDemo.world "20" "hello" None) [] =
    (Fulfilled None,
     [Reply.GetTweet "20"; Reply.Like "20"; Reply.Send "hello" "20" None; Reply.ReadJson;
      Reply.LogTweet
        {| Reply.TweetLog.tweet_id := Some (Json.Str "999");
           Reply.TweetLog.text := "hello";
           Reply.TweetLog.tweet_type := "reply";
           Reply.TweetLog.has_media := false;
           Reply.TweetLog.in_reply_to_tweet_id := "20";
           Reply.TweetLog.created_at := "2023-11-14T22:13:20.004Z" |} None;
      Reply.Logged Reply.FailedToLogReply;
      Reply.FindUser ReplyDemo.broken; Reply.Analyze ReplyDemo.broken;
      Reply.Logged Reply.ErrorSendingReply]).
Proof. vm_compute. reflexivity. Qed.

(** ** All of the thread or none of it *)

(** X17.  [getConversationThread] returns the whole thread or nothing: a
    result with at least one node holds a node for every tweet the walk
    resolved, from the oldest parent to the requested tweet, and such a
    result is returned only when the walk ended (on a tweet without parent
    reference or on a parent that was not found) and every one of those
    tweets was convertible.  There is no result with some of the resolved
    tweets missing. *)
Theorem thread_all_or_nothing W fuel tweetId log nodes log' :
  run (getConversationThread W fuel tweetId) log = (Fulfilled nodes, log') →
  nodes = []
  ∨ ∃ e focus above,
      getTweet W tweetId = Resolve (Some focus)
      ∧ Ancestry W e focus above
      ∧ Forall (convertible W) (focus :: above)
      ∧ nodes = (nodeOf W false <$> rev above) ++ [nodeOf W true focus]
      ∧ length nodes = S (length above)
      ∧ log' = log ++ (CallGetTweet <$>
                         tweetId :: walkCalls e focus above
                                 ++ quoteCalls (rev above ++ [focus])).
Proof.
  intros Hrun. destruct nodes as [|n nodes]; [by left|right].
  destruct (thread_nonempty_inv W fuel tweetId log _ log' Hrun)
    as (e & focus & above & Hget & Hanc & Hconv & Hfuel); [done|].
  pose proof (thread_of_ancestry W e fuel tweetId focus above log Hget Hanc Hconv Hfuel)
    as Hthread.
  rewrite Hrun in Hthread. injection Hthread as Hnodes Hlog.
  exists e, focus, above. repeat split; try done.
  rewrite Hnodes, length_app, length_fmap, length_rev. simpl. lia.
Qed.

Lemma thread_all_or_nothing_witness :
  [nodeOf Demo.world false Demo.frank; nodeOf Demo.world true Demo.mallory] = []
  ∨ ∃ e focus above,
      getTweet Demo.world "14" = Resolve (Some focus)
      ∧ Ancestry Demo.world e focus above
      ∧ Forall (convertible Demo.world) (focus :: above)
      ∧ [nodeOf Demo.world false Demo.frank; nodeOf Demo.world true Demo.mallory]
        = (nodeOf Demo.world false <$> rev above) ++ [nodeOf Demo.world true focus]
      ∧ length [nodeOf Demo.world false Demo.frank; nodeOf Demo.world true Demo.mallory]
        = S (length above)
      ∧ [CallGetTweet "14"; CallGetTweet "5"; CallGetTweet "404"]
        = [] ++ (CallGetTweet <$>
                   "14" :: walkCalls e focus above ++ quoteCalls (rev above ++ [focus])).
Proof.
  apply (thread_all_or_nothing Demo.world 3 "14" []).
  vm_compute. reflexivity.
Defined.

(** ** The focus tweet is fetched twice *)

Lemma getConversationThread_first_call W fuel tweetId :
  ∃ rest, effects (getConversationThread W fuel tweetId) = CallGetTweet tweetId :: rest.
Proof.
  unfold effects, getConversationThread, try_catch.
  change (?m []) with (run m []) at 1.
  rewrite run_bind, run_getTweet. cbn [app].
  destruct (getTweet W tweetId) as [[focus|]|].
  - match goal with
    | |- context [run ?k [CallGetTweet tweetId]] =>
        assert (Hk : Framed k); [|rewrite (Hk [CallGetTweet tweetId])]
    end.
    { apply framed_bind; [apply framed_walk|]. intros ps.
      apply framed_bind; [apply framed_promise_all_map, framed_parentNode|]. intros conv.
      apply framed_bind; [apply framed_resolveQuote|]. intros qc.
      apply framed_bind; [apply framed_threadNode|]. intros n. apply framed_ret. }
    match goal with
    | |- context [outcome ?k] => destruct (outcome k)
    end; async_compute; eexists; reflexivity.
  - by eexists.
  - by eexists.
Qed.

(** X18.  For a usable focus tweet whose history can be read,
    [fetchAndFormatTweetMemory] asks the platform for the focus tweet
    twice: once itself, to read the username and the text, and once more
    through [getConversationThread], after the history has been read. *)
Theorem focus_tweet_fetched_twice W fuel tweetId t history log :
  getTweet W tweetId = Resolve (Some t) →
  Js.truthy (Tweet.username t) = true →
  Js.truthy (Tweet.text t) = true →
  getConversationWithUser W (default "" (Tweet.username t)) = Resolve history →
  ∃ rest,
    (run (fetchAndFormatTweetMemory W fuel tweetId) log).2 =
    log ++ CallGetTweet tweetId
        :: CallGetConversationWithUser (default "" (Tweet.username t))
        :: CallGetTweet tweetId :: rest.
Proof.
  intros Hget Hu Ht Hhist.
  destruct (getConversationThread_first_call W fuel tweetId) as [rest Hrest].
  rewrite (run_fetch_usable W fuel tweetId t log Hget Hu Ht).
  unfold try_catch, run.
  change (?m (log ++ [CallGetTweet tweetId])) with (run m (log ++ [CallGetTweet tweetId])) at 1.
  rewrite run_bind, run_await_call, Hhist.
  rewrite run_bind, (framed_getConversationThread W fuel tweetId _), Hrest.
  destruct (outcome (getConversationThread W fuel tweetId)) as [thread|[message|]|];
    async_compute; rewrite <- ?app_assoc; eexists; reflexivity.
Qed.

Lemma focus_tweet_fetched_twice_witness :
  ∃ rest,
    (run (fetchAndFormatTweetMemory Demo.world 2 "3") []).2 =
    [] ++ CallGetTweet "3" :: CallGetConversationWithUser "carol" :: CallGetTweet "3" :: rest.
Proof.
  apply (focus_tweet_fetched_twice Demo.world 2 "3" Demo.carol [Demo.past] []);
    reflexivity.
Defined.

(** ** The sections of the transcript *)

(** X19.  For a thread of two messages or more the transcript has its three
    parts in this order: the parent section with the first message, the
    replies-above section with the messages strictly between the first and
    the last (left out when there is none), and the focus section with the
    last message; each message is rendered once. *)
Theorem transcript_sections W threadMessages historyMessages :
  (2 ≤ length threadMessages)%nat →
  ∃ parent between focus threadMemory,
    threadMessages = parent :: between ++ [focus]
    ∧ threadMemory =
        "Current Tweet Thread:" +:+ Js.nl +:+ Js.nl
          +:+ ("Parent Tweet:" +:+ Js.nl +:+ formatMessage W parent +:+ Js.nl)
          +:+ (if (0 <? length between)%nat
               then "Replies Above the Tweet You Are Replying To:" +:+ Js.nl
                      +:+ Js.join Js.nl (formatMessage W <$> between) +:+ Js.nl
               else "")
          +:+ ("The Tweet You Are Replying To:" +:+ Js.nl +:+ formatMessage W focus +:+ Js.nl)
    ∧ formatMemory W threadMessages [] =
        threadMemory +:+ Js.nl +:+ Js.nl +:+ "No previous conversation history."
    ∧ ∃ historyMemory,
        formatMemory W threadMessages historyMessages =
          threadMemory +:+ Js.nl +:+ Js.nl +:+ historyMemory.
Proof.
  intros Hlen. destruct threadMessages as [|parent rest]; [simpl in Hlen; lia|].
  destruct (exists_last (l := rest)) as (between & focus & ->).
  { intros ->. simpl in Hlen. lia. }
  exists parent, between, focus. eexists. split; [done|]. split; [reflexivity|].
  split.
  - by rewrite formatMemory_sections.
  - eexists. by rewrite formatMemory_sections.
Qed.

Lemma transcript_sections_witness :
  ∃ parent between focus threadMemory,
    [nodeOf Demo.world false Demo.alice; nodeOf Demo.world false Demo.bob;
     nodeOf Demo.world true Demo.carol] = parent :: between ++ [focus]
    ∧ threadMemory =
        "Current Tweet Thread:" +:+ Js.nl +:+ Js.nl
          +:+ ("Parent Tweet:" +:+ Js.nl +:+ formatMessage Demo.world parent +:+ Js.nl)
          +:+ (if (0 <? length between)%nat
               then "Replies Above the Tweet You Are Replying To:" +:+ Js.nl
                      +:+ Js.join Js.nl (formatMessage Demo.world <$> between) +:+ Js.nl
               else "")
          +:+ ("The Tweet You Are Replying To:" +:+ Js.nl
                 +:+ formatMessage Demo.world focus +:+ Js.nl)
    ∧ formatMemory Demo.world
        [nodeOf Demo.world false Demo.alice; nodeOf Demo.world false Demo.bob;
         nodeOf Demo.world true Demo.carol] [] =
        threadMemory +:+ Js.nl +:+ Js.nl +:+ "No previous conversation history."
    ∧ ∃ historyMemory,
        formatMemory Demo.world
          [nodeOf Demo.world false Demo.alice; nodeOf Demo.world false Demo.bob;
           nodeOf Demo.world true Demo.carol] [Demo.past] =
          threadMemory +:+ Js.nl +:+ Js.nl +:+ historyMemory.
Proof.
  apply (transcript_sections Demo.world
           [nodeOf Demo.world false Demo.alice; nodeOf Demo.world false Demo.bob;
            nodeOf Demo.world true Demo.carol] [Demo.past]).
  simpl. lia.
Defined.
